(** * The NATS message-queue trigger of fission: [mqtrigger/messageQueue/nats.go]

    A shallow embedding of [subscribe], [isTopicValidForNats] and the
    per-message closure returned by [msgHandler], together with the small
    part of the Go libraries they lean on ([bytes.Reader], [strings.TrimPrefix],
    [net/http]'s header map and request).

    Effects are explicit: a run of the handler yields the list of calls it
    made to the outside world (HTTP attempts, acknowledge, publish, close of
    the response body) and the way the run ended (normal return, process exit
    through [log.Fatalf], or a nil-pointer panic).  What the outside world
    answers to an HTTP attempt or to a broker subscribe is an oracle carried
    by the arguments.  Log lines are not part of the model, [log.Fatalf]
    apart. *)

From Stdlib Require Import ZArith String Ascii List Lia Bool PeanoNat.
From stdpp Require Import base option list strings gmap.
Import ListNotations.

Local Open Scope string_scope.
Local Open Scope list_scope.

(** Go's [error]: [None] is the nil error, [Some m] an error with message [m]. *)
Definition error : Type := string.

(** [[]byte(s)] for the examples. *)
Definition bytes_of (s : string) : list Byte.byte := list_byte_of_string s.

(** ** Package [bytes]: the reader over a byte slice *)
Module bytes.

(** [bytes.Reader]: the slice [s] and the current reading index [i]. *)
Record Reader := { s : list Byte.byte; i : nat }.

(** [bytes.NewReader(b)] *)
Definition NewReader (b : list Byte.byte) : Reader := {| s := b; i := 0 |}.

(** The unread portion of the slice, what a consumer of the reader still
    gets out of it. *)
Definition unread (r : Reader) : list Byte.byte := drop (i r) (s r).

(** The reader after a consumer asked it for [n] bytes: as [Reader.Read]
    does, it hands out what is left of the slice, up to [n] bytes, and moves
    its index by that many. *)
Definition advance (n : nat) (r : Reader) : Reader :=
  {| s := s r; i := i r + Nat.min n (length (unread r)) |}.

End bytes.

(** ** Package [strings] *)
Module strings.

(** [strings.TrimPrefix(s, prefix)]: [s] without the leading [prefix],
    or [s] itself when it does not start with [prefix]. *)
Definition TrimPrefix (s prefix : string) : string :=
  if String.prefix prefix s
  then String.substring (String.length prefix)
                        (String.length s - String.length prefix) s
  else s.

End strings.

(** ** Package [net/textproto]: canonical header keys *)
Module textproto.

Definition isLower (c : ascii) : bool :=
  let n := nat_of_ascii c in (97 <=? n)%nat && (n <=? 122)%nat.
Definition isUpper (c : ascii) : bool :=
  let n := nat_of_ascii c in (65 <=? n)%nat && (n <=? 90)%nat.
Definition isDigit (c : ascii) : bool :=
  let n := nat_of_ascii c in (48 <=? n)%nat && (n <=? 57)%nat.

(** The bytes allowed in a header field name (an RFC 7230 token). *)
Definition validHeaderFieldByte (c : ascii) : bool :=
  isLower c || isUpper c || isDigit c ||
  existsb (Ascii.eqb c)
  (list_ascii_of_string "!#$%&'*+-.^_`|~").

Definition toUpper (c : ascii) : ascii := ascii_of_nat (nat_of_ascii c - 32).
Definition toLower (c : ascii) : ascii := ascii_of_nat (nat_of_ascii c + 32).

(** First letter and every letter after a dash in upper case, the others
    in lower case. *)
Fixpoint canonicalize (upper : bool) (a : string) : string :=
  match a with
  | EmptyString => EmptyString
  | String c rest =>
      let c' := if upper && isLower c then toUpper c
                else if negb upper && isUpper c then toLower c
                else c in
      String c' (canonicalize (Ascii.eqb c' "-") rest)
  end.

(** [textproto.CanonicalMIMEHeaderKey]: a key holding a byte that is not
    allowed in a field name is left as it is. *)
Definition CanonicalMIMEHeaderKey (key : string) : string :=
  if forallb validHeaderFieldByte (list_ascii_of_string key)
  then canonicalize true key
  else key.

End textproto.

(** ** Package [io] / [io/ioutil] *)
Module ioutil.

(** An [io.ReadCloser] as its reader sees it: the bytes it delivers and
    the error, if any, that ends the reading. *)
Record ReadCloser := { content : list Byte.byte; readErr : option error }.

(** [ioutil.ReadAll(r)] *)
Definition ReadAll (r : ReadCloser) : list Byte.byte * option error :=
  (content r, readErr r).

End ioutil.

(** ** Package [net/http] *)
Module http.

(** [http.Header] is [map[string][]string]. *)
Abbreviation Header := (gmap string (list string)).

(** [Header.Add(key, value)]: append [value] under the canonical key. *)
Definition Add (key value : string) (h : Header) : Header :=
  let key := textproto.CanonicalMIMEHeaderKey key in
  <[ key := default [] (h !! key) ++ [value] ]> h.

(** [Header.Values(key)]: all the values under the canonical key. *)
Definition Values (h : Header) (key : string) : list string :=
  default [] (h !! textproto.CanonicalMIMEHeaderKey key).

(** [http.Request], the fields this code sets.  [ReqBody] is the request's
    [Body]: the reader handed to [http.NewRequest]. *)
Record Request := {
  Method : string;
  URL : string;
  Header_ : Header;
  ReqBody : bytes.Reader
  }.

(** [http.Response], the fields this code reads. *)
Record Response := {
  StatusCode : Z;
  Body : ioutil.ReadCloser
  }.

(** What one call of [http.DefaultClient.Do(req)] does: it pulls
    [bodyRead] bytes out of the request's body reader (fewer when the
    reader ends before that), and returns [(resp, err)]. *)
Record DoResult := {
  bodyRead : nat;
  resp : option Response;
  err : option error
  }.

(** The request as [Do] leaves it to the caller: the same object, its
    body reader advanced by what the transport read. *)
Definition afterDo (d : DoResult) (req : Request) : Request :=
  {| Method := Method req; URL := URL req; Header_ := Header_ req;
     ReqBody := bytes.advance (bodyRead d) (ReqBody req) |}.

End http.

(** ** Package [fission]: function references *)
Module fission.

(** [fission.FunctionReference]; [Type_] is the Go field [Type]. *)
Record FunctionReference := { Type_ : string; Name : string }.

End fission.

(** ** Package [crd]: the trigger object *)
Module crd.

Record ObjectMeta := { Name : string; UID : string }.

Record MessageQueueTriggerSpec := {
  FunctionReference : fission.FunctionReference;
  Topic : string;
  ResponseTopic : string;
  ErrorTopic : string;
  MaxRetries : Z;
  ContentType : string
  }.

Record MessageQueueTrigger := {
  Metadata : ObjectMeta;
  Spec : MessageQueueTriggerSpec
  }.

End crd.

(** ** Package [go-nats-streaming] *)
Module ns.

(** The subscription options this code sets. *)
Record Options := { DurableName_ : string; ManualAcks : bool }.

Definition DefaultOptions : Options :=
  {| DurableName_ := EmptyString; ManualAcks := false |}.

(** [ns.SubscriptionOption]: a setter on the options. *)
Definition SubscriptionOption : Type := Options -> Options.

Definition DurableName (name : string) : SubscriptionOption :=
  fun o => {| DurableName_ := name; ManualAcks := ManualAcks o |}.

Definition SetManualAckMode : SubscriptionOption :=
  fun o => {| DurableName_ := DurableName_ o; ManualAcks := true |}.

Definition applyOptions (opts : list SubscriptionOption) : Options :=
  fold_left (fun o f => f o) opts DefaultOptions.

(** [ns.Subscription]: an opaque handle. *)
Definition Subscription : Type := nat.

(** [ns.Conn]: what the broker answers to [Subscribe(subject, cb, opts...)].
    [Publish] and [Ack] results are only logged by this code and show up as
    events of a run. *)
Record Conn := {
  Subscribe : string -> Options -> Subscription + error
  }.

(** [ns.Msg]: the payload. *)
Record Msg := { Data : list Byte.byte }.

End ns.

(** ** Runs and their effects *)

(** The two places that publish: line 173 (error topic) and line 188
    (response topic). *)
Inductive PublishSite := ToErrorTopic | ToResponseTopic.

(** The calls a run makes to the outside world, in the order it makes them. *)
Inductive Event :=
| EvSubscribe (subject : string) (opts : ns.Options)
    (* nats.nsConn.Subscribe(subj, handler, opts...) *)
| EvDo (attempt : nat) (req : http.Request) (d : http.DoResult)
    (* http.DefaultClient.Do(req): the request as it is at the call, and
       what the call did *)
| EvAck
    (* msg.Ack() *)
| EvPublish (site : PublishSite) (topic : string) (payload : list Byte.byte)
    (* nats.nsConn.Publish(topic, payload) *)
| EvCloseBody.
    (* the deferred resp.Body.Close() *)

(** How a run of the handler ends. *)
Inductive Termination :=
| Returned                (* the closure returns to the broker client *)
| ProcessExit (code : Z)  (* log.Fatalf: the log line, then os.Exit(1) *)
| NilPointerPanic.        (* a field is selected through a nil pointer *)

(** [http.DefaultClient] as an oracle: what the [attempt]-th call of [Do]
    does on the request as it then is. *)
Definition Client : Type := nat -> http.Request -> http.DoResult.

(** The [Nats] struct. *)
Record Nats := { nsConn : ns.Conn; routerUrl : string }.

(** An attempt is a success when the call returned a response, no error,
    and status 200 (line 146, behind the nil test of line 142). *)
Definition attemptSucceeded (d : http.DoResult) : bool :=
  match http.resp d with
  | None => false
  | Some r => bool_decide (http.err d = None) && (http.StatusCode r =? 200)%Z
  end.

(** What the retry loop leaves behind: the calls it made, and the variables
    [req], [resp] and [err] as they are when it is left. *)
Record LoopResult := {
  loopEvents : list Event;
  loopReq : http.Request;
  loopResp : option http.Response;
  loopErr : option error
}.

(** Reading a trace. *)
Definition isDo (e : Event) : bool :=
  match e with EvDo _ _ _ => true | _ => false end.

Definition isFailedDo (e : Event) : bool :=
  match e with EvDo _ _ d => negb (attemptSucceeded d) | _ => false end.

(** The outcomes of the HTTP attempts of a trace, in order. *)
Definition doResults (tr : list Event) : list http.DoResult :=
  omap (fun e => match e with EvDo _ _ d => Some d | _ => None end) tr.

(** The publish calls of a trace, in order. *)
Definition publishes (tr : list Event)
  : list (PublishSite * string * list Byte.byte) :=
  omap (fun e => match e with
                 | EvPublish site t b => Some (site, t, b)
                 | _ => None
                 end) tr.

(** Two views of one request object: all that may differ is how far its
    body reader has been read. *)
Definition sameObject (a b : http.Request) : Prop :=
  http.Method a = http.Method b /\ http.URL a = http.URL b /\
  http.Header_ a = http.Header_ b /\
  bytes.s (http.ReqBody a) = bytes.s (http.ReqBody b).

(** The message was acknowledged in the run. *)
Definition acknowledged (tr : list Event) : Prop := In EvAck tr.

(** Some attempt of the run was a success. *)
Definition someAttemptSucceeded (tr : list Event) : Prop :=
  exists k rq d, In (EvDo k rq d) tr /\ attemptSucceeded d = true.

(** Some attempt of the run was a success whose response body reads to its
    end without an error. *)
Definition someAttemptSucceededReadable (tr : list Event) : Prop :=
  exists k rq d resp,
    In (EvDo k rq d) tr /\ attemptSucceeded d = true /\
    http.resp d = Some resp /\ ioutil.readErr (http.Body resp) = None.

(** The body the handler has in hand after the loop: that of the final
    attempt's response, when there is one and it reads without error. *)
Definition finalBody (tr : list Event) : option (list Byte.byte) :=
  match last (doResults tr) with
  | Some d =>
      match http.resp d with
      | Some r =>
          match ioutil.readErr (http.Body r) with
          | None => Some (ioutil.content (http.Body r))
          | Some _ => None
          end
      | None => None
      end
  | None => None
  end.

(** The last response body any attempt of the run came back with, the empty
    payload when no attempt came back with a response. *)
Definition lastObservedBody (tr : list Event) : list Byte.byte :=
  default []
    (last (omap (fun d => match http.resp d with
                          | Some r => Some (ioutil.content (http.Body r))
                          | None => None
                          end) (doResults tr))).

(** Boolean form of [someAttemptSucceeded]. *)
Definition anySucceeded (tr : list Event) : bool :=
  existsb attemptSucceeded (doResults tr).

(** The response of the final attempt of a run, if any. *)
Definition finalResponse (tr : list Event) : option http.Response :=
  match last (doResults tr) with
  | Some d => http.resp d
  | None => None
  end.

(** A publish made at line 188. *)
Definition isResponsePublish (e : Event) : bool :=
  match e with EvPublish ToResponseTopic _ _ => true | _ => false end.

(** The request carries a header of that name, holding that one value. *)
Definition carries (req : http.Request) (name value : string) : Prop :=
  http.Values (http.Header_ req) name = [value].

(** ** The claims of the specification, as it words them

    Each is a property of one run; the theorems below settle them. *)

(** Acknowledged if and only if some attempt succeeded. *)
Definition ackIffSucceeded (tr : list Event) : Prop :=
  acknowledged tr <-> someAttemptSucceeded tr.

(** A message that exhausts its retries is not acknowledged; with an error
    topic, exactly one publish, to it, of the last observed body (empty when
    there is none); without, no publish. *)
Definition publishesOnExhaustion (spec : crd.MessageQueueTriggerSpec)
  (tr : list Event) : Prop :=
  ~ someAttemptSucceeded tr ->
  ~ acknowledged tr /\
  (crd.ErrorTopic spec <> EmptyString ->
   publishes tr = [(ToErrorTopic, crd.ErrorTopic spec, lastObservedBody tr)]) /\
  (crd.ErrorTopic spec = EmptyString -> publishes tr = []).

(** A publish to the response topic has an acknowledge call before it. *)
Definition responseTopicPublishAfterAck (spec : crd.MessageQueueTriggerSpec)
  (tr : list Event) : Prop :=
  forall pre post site body,
    tr = pre ++ EvPublish site (crd.ResponseTopic spec) body :: post ->
    In EvAck pre.

(** The run leaves the hosting process alive. *)
Definition processSurvives (t : Termination) : Prop :=
  match t with
  | Returned => True
  | ProcessExit _ | NilPointerPanic => False
  end.

(** The request has the payload as its body and the four headers under the
    names the specification gives them. *)
Definition requestAsSpecified (trigger : crd.MessageQueueTrigger)
  (msg : ns.Msg) (rq : http.Request) : Prop :=
  bytes.unread (http.ReqBody rq) = ns.Data msg /\
  carries rq "X-MQTrigger-Topic" (crd.Topic (crd.Spec trigger)) /\
  carries rq "X-MQTrigger-RespTopic" (crd.ResponseTopic (crd.Spec trigger)) /\
  carries rq "X-MQTrigger-ErrorTopic" (crd.ErrorTopic (crd.Spec trigger)) /\
  carries rq "Content-Type" (crd.ContentType (crd.Spec trigger)).

(** Boolean forms, for the sample runs. *)
Definition isAck (e : Event) : bool :=
  match e with EvAck => true | _ => false end.

(** ** Further readings of a trace *)

Definition isClose (e : Event) : bool :=
  match e with EvCloseBody => true | _ => false end.

Definition isErrorPublish (e : Event) : bool :=
  match e with EvPublish ToErrorTopic _ _ => true | _ => false end.

(** The bytes one call of [Do] pulled out of the body of the request. *)
Definition bytesRead (rq : http.Request) (d : http.DoResult)
  : list Byte.byte :=
  take (http.bodyRead d) (bytes.unread (http.ReqBody rq)).

(** All the bytes the attempts of a run pulled out of the request body, in
    the order they were read. *)
Definition sentBytes (tr : list Event) : list Byte.byte :=
  flat_map (fun e => match e with
                     | EvDo _ rq d => bytesRead rq d
                     | _ => []
                     end) tr.

(** ** The rest of the [MessageQueue] interface *)

(** [MessageQueueConfig], of the package's [messageQueue.go]. *)
Record MessageQueueConfig := { MQType : string; Url : string }.

(** The constants of lines 35-40. *)
Definition natsClusterID : string := "fissionMQTrigger".
Definition natsProtocol : string := "nats://".
Definition natsClientID : string := "fission".
Definition natsQueueGroup : string := "fission-messageQueueNatsTrigger".

(** [messageQueueSubscription] is the empty interface: a value of it is
    nil, or holds an [ns.Subscription], or holds something else. *)
Inductive messageQueueSubscription :=
| NilSubscription
| NatsSubscription (sub : ns.Subscription)
| OtherSubscription.

(** What [return sub, nil] and [return nil, err] of [subscribe] hand to the
    caller as its first result. *)
Definition asSubscription (r : ns.Subscription + error)
  : messageQueueSubscription :=
  match r with
  | inl sub => NatsSubscription sub
  | inr _ => NilSubscription
  end.

(** How a call of [unsubscribe] ends: [Close()] was called on the
    subscription and its result returned, or the type assertion panicked
    before any call. *)
Inductive UnsubscribeOutcome :=
| Closed (sub : ns.Subscription) (err : option error)
| AssertionPanic.

(** ** Sample worlds

    Concrete triggers, messages and endpoints, for the examples that follow
    the general statements. *)

(** [fission.UrlForFunction] as the router serves it. *)
Definition exUrlForFunction (name : string) : string :=
  "/fission-function/" +:+ name.

(** A channel-name check in the manner of nats-streaming: no empty name,
    and no wildcard character unless wildcards are allowed. *)
Definition exIsChannelNameValid (channel : string) (wildcardsAllowed : bool)
  : bool :=
  negb (String.eqb channel EmptyString) &&
  (wildcardsAllowed ||
   forallb (fun c => negb (Ascii.eqb c "*") && negb (Ascii.eqb c ">"))
           (list_ascii_of_string channel)).

(** A URL parser that refuses blanks. *)
Definition exUrlParses (url : string) : bool :=
  forallb (fun c => negb (Ascii.eqb c " ")) (list_ascii_of_string url).

Definition exMeta : crd.ObjectMeta :=
  {| crd.Name := "orders-trigger"; crd.UID := "uid-42" |}.

Definition exTrigger (refType topic respTopic errTopic : string)
  (maxRetries : Z) : crd.MessageQueueTrigger :=
  {| crd.Metadata := exMeta;
     crd.Spec :=
       {| crd.FunctionReference :=
            {| fission.Type_ := refType; fission.Name := "hello" |};
          crd.Topic := topic;
          crd.ResponseTopic := respTopic;
          crd.ErrorTopic := errTopic;
          crd.MaxRetries := maxRetries;
          crd.ContentType := "application/json" |} |}.

Definition exConn : ns.Conn :=
  {| ns.Subscribe := fun _ _ => inl 7%nat |}.

Definition exNats : Nats :=
  {| nsConn := exConn; routerUrl := "http://router.fission" |}.

Definition exMsg : ns.Msg := {| ns.Data := bytes_of "ping" |}.

Definition exReadable (status : Z) (body : string) : http.Response :=
  {| http.StatusCode := status;
     http.Body := {| ioutil.content := bytes_of body;
                     ioutil.readErr := None |} |}.

Definition exUnreadable (status : Z) : http.Response :=
  {| http.StatusCode := status;
     http.Body := {| ioutil.content := [];
                     ioutil.readErr := Some "unexpected EOF" |} |}.

(** The endpoint cannot be reached: no response, an error, nothing read
    from the request body. *)
Definition exUnreachable : Client :=
  fun _ _ => {| http.bodyRead := 0; http.resp := None;
                http.err := Some "connection refused" |}.

(** The endpoint answers every call with the given response, after reading
    the whole request body that is left. *)
Definition exAnswers (r : http.Response) : Client :=
  fun _ req => {| http.bodyRead := length (bytes.unread (http.ReqBody req));
                  http.resp := Some r; http.err := None |}.

(** The endpoint answers 500 before the [k]-th call and 200 from it on. *)
Definition exRecovers (k : nat) : Client :=
  fun attempt req =>
    {| http.bodyRead := length (bytes.unread (http.ReqBody req));
       http.resp := Some (if (attempt <? k)%nat
                          then exReadable 500 "boom"
                          else exReadable 200 "pong");
       http.err := None |}.

(** The endpoint answers 500 once and cannot be reached afterwards. *)
Definition exThenUnreachable : Client :=
  fun attempt req =>
    match attempt with
    | O => {| http.bodyRead := length (bytes.unread (http.ReqBody req));
              http.resp := Some (exReadable 500 "boom"); http.err := None |}
    | S _ => {| http.bodyRead := 0; http.resp := None;
                http.err := Some "connection refused" |}
    end.

(** The request the handler builds for [exMsg] on a trigger with topics
    "orders", "orders.out" and "orders.err". *)
Definition exRequest : http.Request :=
  {| http.Method := "POST";
     http.URL := "http://router.fission/fission-function/hello";
     http.Header_ :=
       http.Add "X-Fission-MQTrigger-Topic" "orders"
         (http.Add "X-Fission-MQTrigger-RespTopic" "orders.out"
            (http.Add "X-Fission-MQTrigger-ErrorTopic" "orders.err"
               (http.Add "Content-Type" "application/json" ∅)));
     http.ReqBody := bytes.NewReader (bytes_of "ping") |}.

(** A broker that accepts connections to one URL only. *)
Definition exConnect (clusterID clientID url : string) : ns.Conn + error :=
  if String.eqb url "nats://nats-streaming:4222"
  then inl exConn
  else inr "nats: no servers available for connection".

(** Closing a subscription goes well, that of handle 0 apart. *)
Definition exClose (sub : ns.Subscription) : option error :=
  match sub with
  | O => Some "stan: invalid subscription"
  | S _ => None
  end.

Definition exCfg : MessageQueueConfig :=
  {| MQType := "nats-streaming"; Url := "nats://nats-streaming:4222" |}.

Section Core.

Set Default Proof Using "Type".
Set Proof Using Clear Unused.

(** Code of the repository and of its libraries that is not in the file:
    [fission.UrlForFunction], the constant
    [fission.FunctionReferenceTypeFunctionName], the channel-name check of
    [nats-streaming-server/util], the URL parser behind [http.NewRequest],
    and the default HTTP client. *)
Variable UrlForFunction : string -> string.
Variable FunctionReferenceTypeFunctionName : string.
Variable IsChannelNameValid : string -> bool -> bool.
Variable urlParses : string -> bool.
Variable DefaultClient : Client.

(** The broker client: [ns.Connect(clusterID, clientID, ns.NatsURL(url))]
    and [Subscription.Close()]. *)
Variable Connect : string -> string -> string -> ns.Conn + error.
Variable Close : ns.Subscription -> option error.

(** [http.NewRequest(method, url, body)]: fails when the URL does not
    parse; the method here is always the valid ["POST"]. *)
Definition NewRequest (method url : string) (body : bytes.Reader)
  : http.Request + error :=
  if urlParses url
  then inl {| http.Method := method; http.URL := url;
              http.Header_ := ∅; http.ReqBody := body |}
  else inr ("parse " +:+ url).

(** [isTopicValidForNats]: nats-streaming does not support wildcard
    channels. *)
Definition isTopicValidForNats (topic : string) : bool :=
  IsChannelNameValid topic false.

(** [Nats.subscribe] *)
Definition subscribe (nats : Nats) (trigger : crd.MessageQueueTrigger)
  : list Event * (ns.Subscription + error) :=
  let subj := crd.Topic (crd.Spec trigger) in
  if negb (isTopicValidForNats subj)
  then ([], inr ("Not a valid topic: " +:+ crd.Topic (crd.Spec trigger)))
  else
    let opts := [ ns.DurableName (crd.UID (crd.Metadata trigger));
                  ns.SetManualAckMode ] in
    let o := ns.applyOptions opts in
    match ns.Subscribe (nsConn nats) subj o with
    | inr err => ([EvSubscribe subj o], inr err)
    | inl sub => ([EvSubscribe subj o], inl sub)
    end.

(** The [headers] map literal of lines 106-111. *)
Definition headers (trigger : crd.MessageQueueTrigger) : gmap string string :=
  <[ "X-Fission-MQTrigger-Topic" := crd.Topic (crd.Spec trigger) ]>
  (<[ "X-Fission-MQTrigger-RespTopic" := crd.ResponseTopic (crd.Spec trigger) ]>
  (<[ "X-Fission-MQTrigger-ErrorTopic" := crd.ErrorTopic (crd.Spec trigger) ]>
  (<[ "Content-Type" := crd.ContentType (crd.Spec trigger) ]> ∅))).

(** [for k, v := range kvs { req.Header.Add(k, v) }], the entries taken in
    the order of the list. *)
Definition addHeaders (kvs : list (string * string)) (req : http.Request)
  : http.Request :=
  {| http.Method := http.Method req; http.URL := http.URL req;
     http.Header_ :=
       fold_left (fun h kv => http.Add (fst kv) (snd kv) h) kvs
                 (http.Header_ req);
     http.ReqBody := http.ReqBody req |}.

(** Line 103 *)
Definition functionUrl (nats : Nats) (trigger : crd.MessageQueueTrigger)
  : string :=
  routerUrl nats +:+ "/" +:+
  strings.TrimPrefix
    (UrlForFunction
       (fission.Name (crd.FunctionReference (crd.Spec trigger)))) "/".

(** Lines 116-126: the request is made once, before the loop. *)
Definition buildRequest (nats : Nats) (trigger : crd.MessageQueueTrigger)
  (msg : ns.Msg) : http.Request + error :=
  match NewRequest "POST" (functionUrl nats trigger)
                   (bytes.NewReader (ns.Data msg)) with
  | inr e => inr e
  | inl req => inl (addHeaders (map_to_list (headers trigger)) req)
  end.

(** Lines 136-150: the retry loop, by the number [remaining] of iterations
    the test [attempt < MaxRetries] still lets through.  Each iteration
    overwrites [resp] and [err]; [continue] on a nil response, [break] on a
    success. *)
Fixpoint attemptLoop (remaining attempt : nat) (req : http.Request)
  (resp : option http.Response) (err : option error) : LoopResult :=
  match remaining with
  | O => {| loopEvents := []; loopReq := req;
            loopResp := resp; loopErr := err |}
  | S remaining' =>
      let d := DefaultClient attempt req in
      let req' := http.afterDo d req in
      let continue_ :=
        let r := attemptLoop remaining' (S attempt) req'
                             (http.resp d) (http.err d) in
        {| loopEvents := EvDo attempt req d :: loopEvents r;
           loopReq := loopReq r;
           loopResp := loopResp r; loopErr := loopErr r |} in
      let break_ :=
        {| loopEvents := [EvDo attempt req d]; loopReq := req';
           loopResp := http.resp d; loopErr := http.err d |} in
      match http.resp d with
      | None => continue_
      | Some r =>
          if bool_decide (http.err d = None) && (http.StatusCode r =? 200)%Z
          then break_
          else continue_
      end
  end.

(** Lines 172-177: publish to the error topic, if one is set. *)
Definition publishError (spec : crd.MessageQueueTriggerSpec)
  (body : list Byte.byte) : list Event :=
  if (0 <? String.length (crd.ErrorTopic spec))%nat
  then [EvPublish ToErrorTopic (crd.ErrorTopic spec) body]
  else [].

(** Lines 187-192: publish to the response topic, if one is set. *)
Definition publishResponse (spec : crd.MessageQueueTriggerSpec)
  (body : list Byte.byte) : list Event :=
  if (0 <? String.length (crd.ResponseTopic spec))%nat
  then [EvPublish ToResponseTopic (crd.ResponseTopic spec) body]
  else [].

(** [msgHandler(nats, trigger)]: the closure run on each message. *)
Definition msgHandler (nats : Nats) (trigger : crd.MessageQueueTrigger)
  (msg : ns.Msg) : list Event * Termination :=
  let spec := crd.Spec trigger in
  if negb (String.eqb (fission.Type_ (crd.FunctionReference spec))
                      FunctionReferenceTypeFunctionName)
  then ([], ProcessExit 1)
  else
    match buildRequest nats trigger msg with
    | inr _ => ([], Returned)
    | inl req =>
        let l := attemptLoop (Z.to_nat (crd.MaxRetries spec)) 0 req None None in
        let tr := loopEvents l in
        match loopResp l with
        | None =>
            (* line 153: resp.Body is evaluated when the defer statement
               runs, before the nil test of line 155 *)
            (tr, NilPointerPanic)
        | Some resp =>
            let '(body, bodyErr) := ioutil.ReadAll (http.Body resp) in
            match bodyErr with
            | Some _ => (tr ++ [EvCloseBody], Returned)
            | None =>
                if negb (bool_decide (loopErr l = None))
                   || negb (http.StatusCode resp =? 200)%Z
                then (tr ++ publishError spec body ++ [EvCloseBody], Returned)
                else (tr ++ [EvAck] ++ publishResponse spec body ++
                      [EvCloseBody], Returned)
            end
        end
    end.

(** [makeNatsMessageQueue] *)
Definition makeNatsMessageQueue (routerUrl : string)
  (mqCfg : MessageQueueConfig) : Nats + error :=
  match Connect natsClusterID natsClientID (Url mqCfg) with
  | inr err => inr err
  | inl conn => inl {| nsConn := conn; routerUrl := routerUrl |}
  end.

(** [Nats.unsubscribe]: the type assertion [subscription.(ns.Subscription)]
    has no second result, so it panics on a value that holds no
    [ns.Subscription]. *)
Definition unsubscribe (nats : Nats) (subscription : messageQueueSubscription)
  : UnsubscribeOutcome :=
  match subscription with
  | NatsSubscription sub => Closed sub (Close sub)
  | NilSubscription | OtherSubscription => AssertionPanic
  end.

(** The paths through the handler, each with what it leaves behind. *)
Inductive HandlerPath (nats : Nats) (trigger : crd.MessageQueueTrigger)
  (msg : ns.Msg) : list Event * Termination -> Prop :=
| PathUnsupported :
    fission.Type_ (crd.FunctionReference (crd.Spec trigger))
      <> FunctionReferenceTypeFunctionName ->
    HandlerPath nats trigger msg ([], ProcessExit 1)
| PathNoRequest e :
    fission.Type_ (crd.FunctionReference (crd.Spec trigger))
      = FunctionReferenceTypeFunctionName ->
    buildRequest nats trigger msg = inr e ->
    HandlerPath nats trigger msg ([], Returned)
| PathNilResponse req l :
    fission.Type_ (crd.FunctionReference (crd.Spec trigger))
      = FunctionReferenceTypeFunctionName ->
    buildRequest nats trigger msg = inl req ->
    l = attemptLoop (Z.to_nat (crd.MaxRetries (crd.Spec trigger))) 0 req
                    None None ->
    loopResp l = None ->
    HandlerPath nats trigger msg (loopEvents l, NilPointerPanic)
| PathUnreadable req l resp e :
    fission.Type_ (crd.FunctionReference (crd.Spec trigger))
      = FunctionReferenceTypeFunctionName ->
    buildRequest nats trigger msg = inl req ->
    l = attemptLoop (Z.to_nat (crd.MaxRetries (crd.Spec trigger))) 0 req
                    None None ->
    loopResp l = Some resp ->
    ioutil.readErr (http.Body resp) = Some e ->
    HandlerPath nats trigger msg (loopEvents l ++ [EvCloseBody], Returned)
| PathFailed req l resp :
    fission.Type_ (crd.FunctionReference (crd.Spec trigger))
      = FunctionReferenceTypeFunctionName ->
    buildRequest nats trigger msg = inl req ->
    l = attemptLoop (Z.to_nat (crd.MaxRetries (crd.Spec trigger))) 0 req
                    None None ->
    loopResp l = Some resp ->
    ioutil.readErr (http.Body resp) = None ->
    loopErr l <> None \/ http.StatusCode resp <> 200%Z ->
    HandlerPath nats trigger msg
      (loopEvents l ++
       publishError (crd.Spec trigger) (ioutil.content (http.Body resp)) ++
       [EvCloseBody], Returned)
| PathSucceeded req l resp :
    fission.Type_ (crd.FunctionReference (crd.Spec trigger))
      = FunctionReferenceTypeFunctionName ->
    buildRequest nats trigger msg = inl req ->
    l = attemptLoop (Z.to_nat (crd.MaxRetries (crd.Spec trigger))) 0 req
                    None None ->
    loopResp l = Some resp ->
    ioutil.readErr (http.Body resp) = None ->
    loopErr l = None ->
    http.StatusCode resp = 200%Z ->
    HandlerPath nats trigger msg
      (loopEvents l ++ [EvAck] ++
       publishResponse (crd.Spec trigger) (ioutil.content (http.Body resp)) ++
       [EvCloseBody], Returned).

(** *** Deciding the trace predicates *)

Lemma acknowledged_isAck (tr : list Event) :
  acknowledged tr <-> existsb isAck tr = true.
Proof.
  unfold acknowledged. rewrite existsb_exists. split.
  - intros Hin. exists EvAck. auto.
  - intros (e & Hin & He). destruct e; try discriminate. exact Hin.
Qed.

Lemma someAttemptSucceeded_anySucceeded (tr : list Event) :
  someAttemptSucceeded tr <-> anySucceeded tr = true.
Proof.
  unfold someAttemptSucceeded, anySucceeded, doResults.
  rewrite existsb_exists. split.
  - intros (k & rq & d & Hin & Hs). exists d. split; [|exact Hs].
    apply list_elem_of_In, list_elem_of_omap.
    exists (EvDo k rq d). split; [now apply list_elem_of_In | reflexivity].
  - intros (d & Hin & Hs).
    apply list_elem_of_In, list_elem_of_omap in Hin.
    destruct Hin as (e & Hin & He).
    destruct e as [| k rq d' | | |]; try discriminate.
    injection He as ->. exists k, rq, d.
    split; [now apply list_elem_of_In | exact Hs].
Qed.

(** *** Properties of the retry loop *)

Lemma sameObject_trans (a b c : http.Request) :
  sameObject a b -> sameObject b c -> sameObject a c.
Proof. unfold sameObject. intuition congruence. Qed.

Lemma sameObject_afterDo (d : http.DoResult) (req : http.Request) :
  sameObject req (http.afterDo d req).
Proof. unfold sameObject. simpl. auto. Qed.

(** [Do] never rewinds the body reader. *)
Lemma afterDo_forward (d : http.DoResult) (req : http.Request) :
  (bytes.i (http.ReqBody req)
   <= bytes.i (http.ReqBody (http.afterDo d req)))%nat.
Proof. simpl. lia. Qed.

(** One iteration: the loop is left on a success, and goes on otherwise. *)
Lemma attemptLoop_S (n a : nat) (req : http.Request)
  (resp : option http.Response) (err : option error) :
  attemptLoop (S n) a req resp err =
  let d := DefaultClient a req in
  if attemptSucceeded d
  then {| loopEvents := [EvDo a req d]; loopReq := http.afterDo d req;
          loopResp := http.resp d; loopErr := http.err d |}
  else
    let r := attemptLoop n (S a) (http.afterDo d req)
                         (http.resp d) (http.err d) in
    {| loopEvents := EvDo a req d :: loopEvents r; loopReq := loopReq r;
       loopResp := loopResp r; loopErr := loopErr r |}.
Proof.
  simpl. unfold attemptSucceeded.
  destruct (http.resp (DefaultClient a req)) as [r0|]; [|reflexivity].
  destruct (bool_decide _ && _); reflexivity.
Qed.

Lemma attemptLoop_shape (n a : nat) (req : http.Request)
  (resp : option http.Response) (err : option error) :
  (n = 0%nat /\ loopEvents (attemptLoop n a req resp err) = [] /\
   loopResp (attemptLoop n a req resp err) = resp /\
   loopErr (attemptLoop n a req resp err) = err) \/
  (exists pre k rq d,
      loopEvents (attemptLoop n a req resp err) = pre ++ [EvDo k rq d] /\
      loopResp (attemptLoop n a req resp err) = http.resp d /\
      loopErr (attemptLoop n a req resp err) = http.err d /\
      Forall (fun e => isFailedDo e = true) pre /\
      (attemptSucceeded d = true \/
       length (loopEvents (attemptLoop n a req resp err)) = n)).
Proof.
  revert a req resp err.
  induction n as [|n IH]; intros a req resp err.
  - left; simpl; auto.
  - right. rewrite attemptLoop_S. cbv zeta.
    remember (DefaultClient a req) as d eqn:Hd.
    destruct (attemptSucceeded d) eqn:Hs.
    + exists [], a, req, d. simpl. auto 6.
    + simpl.
      assert (Hf : isFailedDo (EvDo a req d) = true)
        by (simpl; now rewrite Hs).
      destruct (IH (S a) (http.afterDo d req) (http.resp d) (http.err d))
        as [(-> & He & Hr & Hr')
           | (pre & k & rq & d0 & He & Hr & Hr' & Hpre & Hlast)].
      * exists [], a, req, d. rewrite He. simpl. auto 6.
      * exists (EvDo a req d :: pre), k, rq, d0. rewrite He. simpl.
        repeat split; auto.
        destruct Hlast as [Hl | Hl]; [left; exact Hl | right].
        rewrite <- Hl, He. reflexivity.
Qed.

(** Positions in the loop's trace: the [k]-th call is attempt [a + k], on
    the one request object, whose reader only moves forward. *)
Lemma attemptLoop_lookup (n a : nat) (req : http.Request)
  (resp : option http.Response) (err : option error) (k : nat) (e : Event) :
  loopEvents (attemptLoop n a req resp err) !! k = Some e ->
  exists rq,
    e = EvDo (a + k) rq (DefaultClient (a + k) rq) /\
    sameObject req rq /\
    (bytes.i (http.ReqBody req) <= bytes.i (http.ReqBody rq))%nat /\
    (k = 0%nat -> rq = req).
Proof.
  revert a req resp err k.
  induction n as [|n IH]; intros a req resp err k; [discriminate|].
  rewrite attemptLoop_S. cbv zeta.
  assert (Hhere : exists rq,
    EvDo a req (DefaultClient a req)
      = EvDo (a + 0) rq (DefaultClient (a + 0) rq) /\
    sameObject req rq /\
    (bytes.i (http.ReqBody req) <= bytes.i (http.ReqBody rq))%nat /\
    (0%nat = 0%nat -> rq = req)).
  { exists req. rewrite Nat.add_0_r. repeat split; auto. }
  destruct (attemptSucceeded (DefaultClient a req)); simpl.
  - destruct k as [|k]; [|discriminate].
    intros [= <-]. exact Hhere.
  - destruct k as [|k]; [intros [= <-]; exact Hhere|].
    simpl. intros Hk.
    destruct (IH _ _ _ _ _ Hk) as (rq & -> & Hsame & Hle & _).
    exists rq. replace (a + S k)%nat with (S a + k)%nat by lia.
    split; [reflexivity|]. split; [|split; [|discriminate]].
    + eapply sameObject_trans; [apply sameObject_afterDo | exact Hsame].
    + etransitivity; [apply afterDo_forward | exact Hle].
Qed.

(** *** Reading the trace of the loop *)

Lemma loopEvents_isDo (n a : nat) (req : http.Request)
  (resp : option http.Response) (err : option error) :
  Forall (fun e => isDo e = true) (loopEvents (attemptLoop n a req resp err)).
Proof.
  apply Forall_lookup. intros k e Hk.
  destruct (attemptLoop_lookup _ _ _ _ _ _ _ Hk) as (rq & -> & _).
  reflexivity.
Qed.

Lemma isDo_not_ack (calls : list Event) :
  Forall (fun e => isDo e = true) calls -> ~ In EvAck calls.
Proof.
  intros Hall Hin. rewrite Forall_forall in Hall.
  apply list_elem_of_In, Hall in Hin. discriminate.
Qed.

Lemma isDo_publishes (calls rest : list Event) :
  Forall (fun e => isDo e = true) calls ->
  publishes (calls ++ rest) = publishes rest.
Proof.
  intros Hall. unfold publishes. rewrite omap_app.
  induction Hall as [|e calls He _ IH]; [reflexivity|].
  destruct e; try discriminate. simpl. exact IH.
Qed.

Lemma doResults_app (xs ys : list Event) :
  doResults (xs ++ ys) = doResults xs ++ doResults ys.
Proof. unfold doResults. apply omap_app. Qed.

Lemma doResults_snoc (pre : list Event) (k : nat) (rq : http.Request)
  (d : http.DoResult) :
  last (doResults (pre ++ [EvDo k rq d])) = Some d.
Proof. rewrite doResults_app. simpl. apply last_snoc. Qed.

Lemma doResults_length_isDo (calls : list Event) :
  Forall (fun e => isDo e = true) calls ->
  length (doResults calls) = length calls.
Proof.
  induction 1 as [|e calls He _ IH]; [reflexivity|].
  destruct e; try discriminate. simpl. now rewrite IH.
Qed.

(** A success ends the loop: it is the outcome the loop leaves in [resp]
    and [err]. *)
Lemma loop_success_is_final (n a : nat) (req : http.Request)
  (resp : option http.Response) (err : option error)
  (k : nat) (rq : http.Request) (d : http.DoResult) :
  In (EvDo k rq d) (loopEvents (attemptLoop n a req resp err)) ->
  attemptSucceeded d = true ->
  loopResp (attemptLoop n a req resp err) = http.resp d /\
  loopErr (attemptLoop n a req resp err) = http.err d.
Proof.
  intros Hin Hs.
  destruct (attemptLoop_shape n a req resp err)
    as [(_ & He & _) | (pre & k0 & rq0 & d0 & He & Hr & Hr' & Hpre & _)];
    rewrite He in Hin; [destruct Hin|].
  apply in_app_iff in Hin. destruct Hin as [Hin | [Heq | []]].
  - rewrite Forall_forall in Hpre.
    apply list_elem_of_In, Hpre in Hin. simpl in Hin.
    rewrite Hs in Hin. discriminate.
  - injection Heq as -> -> ->. auto.
Qed.

(** What the loop leaves in [resp] and [err] is the outcome of its last
    call, when it made one. *)
Lemma loop_final_is_last (n a : nat) (req : http.Request)
  (resp : option http.Response) (err : option error) :
  match last (doResults (loopEvents (attemptLoop n a req resp err))) with
  | Some d =>
      loopResp (attemptLoop n a req resp err) = http.resp d /\
      loopErr (attemptLoop n a req resp err) = http.err d /\
      (exists k rq,
          In (EvDo k rq d) (loopEvents (attemptLoop n a req resp err))) /\
      (attemptSucceeded d = true \/
       length (loopEvents (attemptLoop n a req resp err)) = n)
  | None =>
      n = 0%nat /\ loopEvents (attemptLoop n a req resp err) = [] /\
      loopResp (attemptLoop n a req resp err) = resp /\
      loopErr (attemptLoop n a req resp err) = err
  end.
Proof.
  destruct (attemptLoop_shape n a req resp err)
    as [(Hn & He & Hr & Hr') | (pre & k0 & rq0 & d0 & He & Hr & Hr' & _ & Hl)].
  - rewrite He. simpl. auto.
  - pose proof (doResults_snoc pre k0 rq0 d0) as Hlast.
    rewrite <- He in Hlast. rewrite Hlast.
    repeat split; auto.
    exists k0, rq0. rewrite He. apply in_app_iff. right. now left.
Qed.

Lemma attemptSucceeded_iff (d : http.DoResult) :
  attemptSucceeded d = true <->
  exists r, http.resp d = Some r /\ http.err d = None /\
            http.StatusCode r = 200%Z.
Proof.
  unfold attemptSucceeded. destruct (http.resp d) as [r|].
  - rewrite andb_true_iff, bool_decide_eq_true, Z.eqb_eq. split.
    + intros [He Hs]. exists r. auto.
    + intros (r' & [= <-] & He & Hs). auto.
  - split; [discriminate | intros (r & Hr & _); discriminate].
Qed.

(** Every call in the loop's trace is a call of the client, numbered from
    [a] on. *)
Lemma loop_In_client (n a : nat) (req : http.Request)
  (resp : option http.Response) (err : option error)
  (k : nat) (rq : http.Request) (d : http.DoResult) :
  In (EvDo k rq d) (loopEvents (attemptLoop n a req resp err)) ->
  d = DefaultClient k rq /\ sameObject req rq /\
  loopEvents (attemptLoop n a req resp err) !! (k - a)%nat
    = Some (EvDo k rq d) /\ (a <= k)%nat.
Proof.
  intros Hin. apply list_elem_of_In, list_elem_of_lookup in Hin.
  destruct Hin as [pos Hpos].
  destruct (attemptLoop_lookup _ _ _ _ _ _ _ Hpos) as (rq' & Heq & Hsame & _).
  injection Heq as -> -> ->.
  replace (a + pos - a)%nat with pos by lia.
  split; [reflexivity|]. split; [exact Hsame|]. split; [exact Hpos | lia].
Qed.

(** An endpoint that never succeeds is called on every iteration. *)
Lemma attemptLoop_all_fail (n a : nat) (req : http.Request)
  (resp : option http.Response) (err : option error) :
  (forall k rq, attemptSucceeded (DefaultClient k rq) = false) ->
  length (loopEvents (attemptLoop n a req resp err)) = n.
Proof.
  intros Hfail. revert a req resp err.
  induction n as [|n IH]; intros a req resp err; [reflexivity|].
  rewrite attemptLoop_S. cbv zeta. rewrite Hfail. simpl.
  now rewrite IH.
Qed.

(** When the loop, entered with no response, leaves a response with no
    error and status 200, its last call was a success. *)
Lemma loop_final_success (n a : nat) (req : http.Request)
  (err : option error) (r : http.Response) :
  loopResp (attemptLoop n a req None err) = Some r ->
  loopErr (attemptLoop n a req None err) = None ->
  http.StatusCode r = 200%Z ->
  exists k rq d,
    In (EvDo k rq d) (loopEvents (attemptLoop n a req None err)) /\
    attemptSucceeded d = true /\ http.resp d = Some r.
Proof.
  intros Hresp Herr Hst.
  pose proof (loop_final_is_last n a req None err) as Hlast.
  destruct (last (doResults _)) as [d|].
  - destruct Hlast as (Hr & Hr' & (k & rq & Hin) & _).
    exists k, rq, d. repeat split; auto; [|congruence].
    apply attemptSucceeded_iff. exists r. repeat split; congruence.
  - destruct Hlast as (_ & _ & Hr & _). congruence.
Qed.

Lemma buildRequest_ok (nats : Nats) (trigger : crd.MessageQueueTrigger)
  (msg : ns.Msg) :
  urlParses (functionUrl nats trigger) = true ->
  exists req, buildRequest nats trigger msg = inl req.
Proof.
  intros Hurl. unfold buildRequest, NewRequest. rewrite Hurl. eauto.
Qed.

(** *** The handler, path by path *)

Lemma msgHandler_path (nats : Nats) (trigger : crd.MessageQueueTrigger)
  (msg : ns.Msg) :
  HandlerPath nats trigger msg (msgHandler nats trigger msg).
Proof.
  unfold msgHandler.
  destruct (String.eqb_spec
              (fission.Type_ (crd.FunctionReference (crd.Spec trigger)))
              FunctionReferenceTypeFunctionName) as [Hty | Hty]; simpl.
  2: { now apply PathUnsupported. }
  destruct (buildRequest nats trigger msg) as [req | e] eqn:Hreq.
  2: { now apply (PathNoRequest _ _ _ e). }
  remember (attemptLoop (Z.to_nat (crd.MaxRetries (crd.Spec trigger))) 0 req
                        None None) as l eqn:Hl.
  destruct (loopResp l) as [resp|] eqn:Hresp.
  2: { now apply (PathNilResponse _ _ _ req l). }
  destruct (ioutil.readErr (http.Body resp)) as [e|] eqn:Hread.
  { now apply (PathUnreadable _ _ _ req l resp e). }
  destruct (bool_decide (loopErr l = None)) eqn:Herr; simpl.
  - apply bool_decide_eq_true in Herr.
    destruct (Z.eqb_spec (http.StatusCode resp) 200) as [Hst | Hst]; simpl.
    + now apply (PathSucceeded _ _ _ req l resp).
    + apply (PathFailed _ _ _ req l resp); auto.
  - apply bool_decide_eq_false in Herr.
    apply (PathFailed _ _ _ req l resp); auto.
Qed.

Lemma publishError_not_ack (spec : crd.MessageQueueTriggerSpec)
  (body : list Byte.byte) : ~ In EvAck (publishError spec body).
Proof.
  unfold publishError. destruct (0 <? _)%nat; simpl; intuition discriminate.
Qed.

(** *** What follows the loop holds no HTTP call *)

Lemma publishError_notDo (spec : crd.MessageQueueTriggerSpec)
  (body : list Byte.byte) :
  Forall (fun e => isDo e = false) (publishError spec body).
Proof. unfold publishError. destruct (0 <? _)%nat; repeat constructor. Qed.

Lemma publishResponse_notDo (spec : crd.MessageQueueTriggerSpec)
  (body : list Byte.byte) :
  Forall (fun e => isDo e = false) (publishResponse spec body).
Proof. unfold publishResponse. destruct (0 <? _)%nat; repeat constructor. Qed.

Lemma In_Do_app (calls rest : list Event) (k : nat) (rq : http.Request)
  (d : http.DoResult) :
  Forall (fun e => isDo e = false) rest ->
  In (EvDo k rq d) (calls ++ rest) -> In (EvDo k rq d) calls.
Proof.
  intros Hrest Hin. apply in_app_iff in Hin. destruct Hin as [Hin | Hin]; auto.
  rewrite Forall_forall in Hrest.
  apply list_elem_of_In, Hrest in Hin. discriminate.
Qed.

Lemma doResults_notDo (rest : list Event) :
  Forall (fun e => isDo e = false) rest -> doResults rest = [].
Proof.
  induction 1 as [|e rest He _ IH]; [reflexivity|].
  destruct e; try discriminate; exact IH.
Qed.

Create HintDb tail.
#[local] Hint Resolve publishError_notDo publishResponse_notDo : tail.
#[local] Hint Extern 1 (Forall _ (_ ++ _)) => apply Forall_app_2 : tail.
#[local] Hint Extern 1 (Forall _ (_ :: _)) => apply Forall_cons_2 : tail.
#[local] Hint Extern 1 (Forall _ []) => apply Forall_nil_2 : tail.
#[local] Hint Extern 1 (isDo _ = false) => reflexivity : tail.

(** C1, as amended: the message is acknowledged if and only if some attempt
    came back without error and with status 200 and the body of that
    response was read to its end without error. *)
Theorem ack_iff_success_and_body_read (nats : Nats)
  (trigger : crd.MessageQueueTrigger) (msg : ns.Msg) :
  acknowledged (fst (msgHandler nats trigger msg)) <->
  someAttemptSucceededReadable (fst (msgHandler nats trigger msg)).
Proof.
  unfold acknowledged, someAttemptSucceededReadable.
  destruct (msgHandler_path nats trigger msg)
    as [Hty | e Hty Hreq | req l Hty Hreq Hl Hresp
        | req l resp e Hty Hreq Hl Hresp Hread
        | req l resp Hty Hreq Hl Hresp Hread Hfail
        | req l resp Hty Hreq Hl Hresp Hread Herr Hst]; simpl.
  - split; [tauto | intros (? & ? & ? & ? & [] & _)].
  - split; [tauto | intros (? & ? & ? & ? & [] & _)].
  - split.
    + intros Hack. exfalso. subst l.
      exact (isDo_not_ack _ (loopEvents_isDo _ _ _ _ _) Hack).
    + intros (k & rq & d & resp0 & Hin & Hs & Hd & _). subst l.
      destruct (loop_success_is_final _ _ _ _ _ _ _ _ Hin Hs) as [Hr _].
      congruence.
  - split.
    + intros Hack. exfalso. apply in_app_iff in Hack.
      destruct Hack as [Hack | [Hack | []]]; [|discriminate]. subst l.
      exact (isDo_not_ack _ (loopEvents_isDo _ _ _ _ _) Hack).
    + intros (k & rq & d & resp0 & Hin & Hs & Hd & Hok).
      apply In_Do_app in Hin; [|auto with tail]. subst l.
      destruct (loop_success_is_final _ _ _ _ _ _ _ _ Hin Hs) as [Hr _].
      congruence.
  - split.
    + intros Hack. exfalso. apply in_app_iff in Hack.
      destruct Hack as [Hack | Hack].
      * subst l. exact (isDo_not_ack _ (loopEvents_isDo _ _ _ _ _) Hack).
      * apply in_app_iff in Hack. destruct Hack as [Hack | [Hack | []]];
          [exact (publishError_not_ack _ _ Hack) | discriminate].
    + intros (k & rq & d & resp0 & Hin & Hs & Hd & Hok).
      apply In_Do_app in Hin; [|auto with tail]. subst l.
      destruct (loop_success_is_final _ _ _ _ _ _ _ _ Hin Hs) as [Hr Hr'].
      apply attemptSucceeded_iff in Hs. destruct Hs as (r & Hr0 & He & Hst).
      assert (r = resp) by congruence. subst r.
      destruct Hfail as [Hfail | Hfail]; congruence.
  - split; [intros _ | intros _; apply in_app_iff; right; now left].
    subst l.
    destruct (loop_final_success _ _ _ _ _ Hresp Herr Hst)
      as (k & rq & d & Hin & Hs & Hd).
    exists k, rq, d, resp. repeat split; auto.
    apply in_app_iff. now left.
Qed.

(** C2: with [MaxRetries = N] in [[1,5]] and an endpoint on which every
    attempt fails, the handler calls the endpoint exactly [N] times, as
    attempts [0 .. N-1], before anything else; nothing after these calls is
    a call of the endpoint, and the message is not acknowledged. *)
Theorem failing_endpoint_invoked_exactly_N_times (nats : Nats)
  (trigger : crd.MessageQueueTrigger) (msg : ns.Msg) (N : Z) :
  crd.MaxRetries (crd.Spec trigger) = N ->
  (1 <= N <= 5)%Z ->
  fission.Type_ (crd.FunctionReference (crd.Spec trigger))
    = FunctionReferenceTypeFunctionName ->
  urlParses (functionUrl nats trigger) = true ->
  (forall k rq, attemptSucceeded (DefaultClient k rq) = false) ->
  exists calls rest,
    fst (msgHandler nats trigger msg) = calls ++ rest /\
    length calls = Z.to_nat N /\
    (forall k e, calls !! k = Some e ->
                 exists rq, e = EvDo k rq (DefaultClient k rq)) /\
    Forall (fun e => isDo e = false) rest /\
    (forall e, In e rest -> e <> EvAck).
Proof.
  intros HN Hrange Hty Hurl Hfail.
  destruct (buildRequest_ok nats trigger msg Hurl) as [req0 Hreq0].
  assert (Hcalls : forall req,
    let l := attemptLoop (Z.to_nat (crd.MaxRetries (crd.Spec trigger))) 0 req
                         None None in
    length (loopEvents l) = Z.to_nat N /\
    (forall k e, loopEvents l !! k = Some e ->
                 exists rq, e = EvDo k rq (DefaultClient k rq))).
  { intros req l. subst l. split.
    - rewrite attemptLoop_all_fail by exact Hfail. now rewrite HN.
    - intros k e Hk.
      destruct (attemptLoop_lookup _ _ _ _ _ _ _ Hk) as (rq & -> & _).
      now exists rq. }
  destruct (msgHandler_path nats trigger msg)
    as [Hty' | e Hty' Hreq | req l Hty' Hreq Hl Hresp
        | req l resp e Hty' Hreq Hl Hresp Hread
        | req l resp Hty' Hreq Hl Hresp Hread Hbad
        | req l resp Hty' Hreq Hl Hresp Hread Herr Hst]; simpl.
  - contradiction.
  - congruence.
  - exists (loopEvents l), []. subst l.
    destruct (Hcalls req) as [Hlen Hidx].
    rewrite app_nil_r.
    split; [reflexivity|]. split; [exact Hlen|]. split; [exact Hidx|].
    split; [constructor|]. intros e [].
  - exists (loopEvents l), [EvCloseBody]. subst l.
    destruct (Hcalls req) as [Hlen Hidx].
    split; [reflexivity|]. split; [exact Hlen|]. split; [exact Hidx|].
    split; [auto with tail|].
    intros e0 [<- | []]. discriminate.
  - exists (loopEvents l),
      (publishError (crd.Spec trigger) (ioutil.content (http.Body resp)) ++
       [EvCloseBody]). subst l.
    destruct (Hcalls req) as [Hlen Hidx].
    split; [reflexivity|]. split; [exact Hlen|]. split; [exact Hidx|].
    split; [auto with tail|].
    intros e0 Hin ->. apply in_app_iff in Hin.
    destruct Hin as [Hin | [Hin | []]];
      [exact (publishError_not_ack _ _ Hin) | discriminate].
  - exfalso. subst l.
    destruct (loop_final_success _ _ _ _ _ Hresp Herr Hst)
      as (k & rq & d & Hin & Hs & _).
    apply loop_In_client in Hin. destruct Hin as (-> & _).
    rewrite Hfail in Hs. discriminate.
Qed.

(** The outcome the handler works with after the loop, read off the trace. *)
Lemma finalBody_loop (n a : nat) (req : http.Request) (err : option error)
  (rest : list Event) :
  Forall (fun e => isDo e = false) rest ->
  finalBody (loopEvents (attemptLoop n a req None err) ++ rest) =
  match loopResp (attemptLoop n a req None err) with
  | Some r =>
      match ioutil.readErr (http.Body r) with
      | None => Some (ioutil.content (http.Body r))
      | Some _ => None
      end
  | None => None
  end.
Proof.
  intros Hrest. unfold finalBody.
  rewrite doResults_app, (doResults_notDo rest Hrest), app_nil_r.
  pose proof (loop_final_is_last n a req None err) as Hlast.
  destruct (last (doResults _)) as [d|].
  - destruct Hlast as (-> & _). reflexivity.
  - destruct Hlast as (_ & _ & -> & _). reflexivity.
Qed.

Lemma publishes_publishError (spec : crd.MessageQueueTriggerSpec)
  (body : list Byte.byte) :
  publishes (publishError spec body ++ [EvCloseBody]) =
  if (0 <? String.length (crd.ErrorTopic spec))%nat
  then [(ToErrorTopic, crd.ErrorTopic spec, body)]
  else [].
Proof. unfold publishError. destruct (0 <? _)%nat; reflexivity. Qed.

(** C4, as amended: a message none of whose attempts succeeded is not
    acknowledged; when its final attempt came back with a response whose
    body reads without error and the error topic is set, exactly one publish
    is made, to the error topic, with that body; with no error topic, with
    an unreadable body, or with no response from the final attempt, nothing
    is published. *)
Theorem exhausted_publishes_final_body (nats : Nats)
  (trigger : crd.MessageQueueTrigger) (msg : ns.Msg) :
  ~ someAttemptSucceeded (fst (msgHandler nats trigger msg)) ->
  ~ acknowledged (fst (msgHandler nats trigger msg)) /\
  publishes (fst (msgHandler nats trigger msg)) =
  match finalBody (fst (msgHandler nats trigger msg)) with
  | Some body =>
      if (0 <? String.length (crd.ErrorTopic (crd.Spec trigger)))%nat
      then [(ToErrorTopic, crd.ErrorTopic (crd.Spec trigger), body)]
      else []
  | None => []
  end.
Proof.
  unfold acknowledged.
  destruct (msgHandler_path nats trigger msg)
    as [Hty | e Hty Hreq | req l Hty Hreq Hl Hresp
        | req l resp e Hty Hreq Hl Hresp Hread
        | req l resp Hty Hreq Hl Hresp Hread Hbad
        | req l resp Hty Hreq Hl Hresp Hread Herr Hst]; simpl; intros Hnone.
  - split; [tauto | reflexivity].
  - split; [tauto | reflexivity].
  - subst l. split; [apply isDo_not_ack, loopEvents_isDo|].
    rewrite <- (app_nil_r (loopEvents _)).
    rewrite finalBody_loop by constructor. rewrite Hresp.
    rewrite isDo_publishes by apply loopEvents_isDo. reflexivity.
  - subst l. split.
    + intros Hack. apply in_app_iff in Hack.
      destruct Hack as [Hack | [Hack | []]]; [|discriminate].
      exact (isDo_not_ack _ (loopEvents_isDo _ _ _ _ _) Hack).
    + rewrite finalBody_loop by auto with tail. rewrite Hresp, Hread.
      rewrite isDo_publishes by apply loopEvents_isDo. reflexivity.
  - subst l. split.
    + intros Hack. apply in_app_iff in Hack. destruct Hack as [Hack | Hack].
      * exact (isDo_not_ack _ (loopEvents_isDo _ _ _ _ _) Hack).
      * apply in_app_iff in Hack. destruct Hack as [Hack | [Hack | []]];
          [exact (publishError_not_ack _ _ Hack) | discriminate].
    + rewrite finalBody_loop by auto with tail. rewrite Hresp, Hread.
      rewrite isDo_publishes by apply loopEvents_isDo.
      apply publishes_publishError.
  - exfalso. apply Hnone. subst l.
    destruct (loop_final_success _ _ _ _ _ Hresp Herr Hst)
      as (k & rq & d & Hin & Hs & _).
    exists k, rq, d. split; [apply in_app_iff; now left | exact Hs].
Qed.

(** C9: when no attempt succeeded and the body of the final attempt's
    response cannot be read, the handler returns, having made all its
    attempts, and publishes nothing (whatever the error topic) and
    acknowledges nothing. *)
Theorem unreadable_final_body_publishes_nothing (nats : Nats)
  (trigger : crd.MessageQueueTrigger) (msg : ns.Msg)
  (d : http.DoResult) (r : http.Response) (e : error) :
  ~ someAttemptSucceeded (fst (msgHandler nats trigger msg)) ->
  last (doResults (fst (msgHandler nats trigger msg))) = Some d ->
  http.resp d = Some r ->
  ioutil.readErr (http.Body r) = Some e ->
  snd (msgHandler nats trigger msg) = Returned /\
  publishes (fst (msgHandler nats trigger msg)) = [] /\
  ~ acknowledged (fst (msgHandler nats trigger msg)) /\
  length (doResults (fst (msgHandler nats trigger msg)))
    = Z.to_nat (crd.MaxRetries (crd.Spec trigger)).
Proof.
  unfold acknowledged.
  assert (Hfinal : forall req rest,
    Forall (fun e => isDo e = false) rest ->
    let l := attemptLoop (Z.to_nat (crd.MaxRetries (crd.Spec trigger))) 0 req
                         None None in
    ~ someAttemptSucceeded (loopEvents l ++ rest) ->
    last (doResults (loopEvents l ++ rest)) = Some d ->
    loopResp l = http.resp d /\
    length (doResults (loopEvents l ++ rest))
      = Z.to_nat (crd.MaxRetries (crd.Spec trigger))).
  { intros req rest Hrest l Hnone Hlast. subst l.
    rewrite doResults_app, (doResults_notDo rest Hrest), app_nil_r in Hlast.
    rewrite doResults_app, (doResults_notDo rest Hrest), app_nil_r.
    pose proof (loop_final_is_last
                  (Z.to_nat (crd.MaxRetries (crd.Spec trigger))) 0 req
                  None None) as Hl.
    rewrite Hlast in Hl. destruct Hl as (Hr & _ & (k & rq & Hin) & Hlen).
    split; [exact Hr|].
    destruct Hlen as [Hs | Hlen].
    - exfalso. apply Hnone. exists k, rq, d.
      split; [apply in_app_iff; now left | exact Hs].
    - rewrite <- Hlen at 2. apply doResults_length_isDo, loopEvents_isDo. }
  destruct (msgHandler_path nats trigger msg)
    as [Hty | e0 Hty Hreq | req l Hty Hreq Hl Hresp
        | req l resp e0 Hty Hreq Hl Hresp Hread
        | req l resp Hty Hreq Hl Hresp Hread Hbad
        | req l resp Hty Hreq Hl Hresp Hread Herr Hst]; simpl;
    intros Hnone Hlast Hd Hunread.
  - discriminate.
  - discriminate.
  - exfalso. subst l. rewrite <- (app_nil_r (loopEvents _)) in Hnone, Hlast.
    destruct (Hfinal req [] ltac:(constructor) Hnone Hlast) as [Hr _].
    congruence.
  - subst l.
    destruct (Hfinal req [EvCloseBody] ltac:(auto with tail) Hnone Hlast)
      as [Hr Hlen].
    split; [reflexivity|]. split; [|split; [|exact Hlen]].
    + rewrite isDo_publishes by apply loopEvents_isDo. reflexivity.
    + intros Hack. apply in_app_iff in Hack.
      destruct Hack as [Hack | [Hack | []]]; [|discriminate].
      exact (isDo_not_ack _ (loopEvents_isDo _ _ _ _ _) Hack).
  - exfalso. subst l.
    destruct (Hfinal req
                (publishError (crd.Spec trigger)
                              (ioutil.content (http.Body resp)) ++
                 [EvCloseBody])
                ltac:(auto with tail) Hnone Hlast) as [Hr _].
    congruence.
  - exfalso. apply Hnone. subst l.
    destruct (loop_final_success _ _ _ _ _ Hresp Herr Hst)
      as (k & rq & d0 & Hin & Hs & _).
    exists k, rq, d0. split; [apply in_app_iff; now left | exact Hs].
Qed.

(** *** The order of the [range] over the header map

    Go leaves the order in which a map is ranged over open.  The model takes
    the entries in the order of [map_to_list]; any other order builds the
    same request. *)

Lemma Add_commute (k1 v1 k2 v2 : string) (h : http.Header) :
  textproto.CanonicalMIMEHeaderKey k1 <> textproto.CanonicalMIMEHeaderKey k2 ->
  http.Add k1 v1 (http.Add k2 v2 h) = http.Add k2 v2 (http.Add k1 v1 h).
Proof.
  intros Hne. unfold http.Add. cbv zeta.
  rewrite !lookup_insert_ne by congruence.
  apply insert_insert_ne. congruence.
Qed.

Lemma fold_Add_permutation (kvs kvs' : list (string * string))
  (h : http.Header) :
  kvs ≡ₚ kvs' ->
  NoDup ((fun kv => textproto.CanonicalMIMEHeaderKey (fst kv)) <$> kvs) ->
  fold_left (fun h kv => http.Add (fst kv) (snd kv) h) kvs h =
  fold_left (fun h kv => http.Add (fst kv) (snd kv) h) kvs' h.
Proof.
  intros Hperm. revert h.
  induction Hperm as [| x l l' Hperm IH | x y l | l l' l'' H1 IH1 H2 IH2];
    intros h Hnd; simpl.
  - reflexivity.
  - apply IH. now apply NoDup_cons in Hnd as [_ Hnd].
  - f_equal. apply Add_commute.
    rewrite !fmap_cons in Hnd. apply NoDup_cons in Hnd as [Hnotin _].
    intros Heq. apply Hnotin. rewrite Heq. left.
  - rewrite IH1 by exact Hnd. apply IH2. now rewrite <- H1.
Qed.

(** X10: whatever the order in which the entries of the header map are
    ranged over, the request that comes out is the same. *)
Lemma addHeaders_any_order (trigger : crd.MessageQueueTrigger)
  (kvs : list (string * string)) (req : http.Request) :
  kvs ≡ₚ map_to_list (headers trigger) ->
  addHeaders kvs req = addHeaders (map_to_list (headers trigger)) req.
Proof.
  intros Hperm. unfold addHeaders. f_equal.
  symmetry. apply fold_Add_permutation; [now symmetry|].
  apply (bool_decide_unpack _). vm_compute. exact I.
Qed.

(** *** The request *)

(** Lines 116-126, field by field. *)
Lemma buildRequest_spec (nats : Nats) (trigger : crd.MessageQueueTrigger)
  (msg : ns.Msg) (req : http.Request) :
  buildRequest nats trigger msg = inl req ->
  http.Method req = "POST" /\
  http.URL req = functionUrl nats trigger /\
  http.ReqBody req = bytes.NewReader (ns.Data msg) /\
  http.Values (http.Header_ req) "X-Fission-MQTrigger-Topic"
    = [crd.Topic (crd.Spec trigger)] /\
  http.Values (http.Header_ req) "X-Fission-MQTrigger-RespTopic"
    = [crd.ResponseTopic (crd.Spec trigger)] /\
  http.Values (http.Header_ req) "X-Fission-MQTrigger-ErrorTopic"
    = [crd.ErrorTopic (crd.Spec trigger)] /\
  http.Values (http.Header_ req) "Content-Type"
    = [crd.ContentType (crd.Spec trigger)].
Proof.
  unfold buildRequest, NewRequest.
  destruct (urlParses (functionUrl nats trigger)); [|discriminate].
  intros [= <-]. simpl.
  repeat split; vm_compute; reflexivity.
Qed.

Lemma sameObject_sym (a b : http.Request) :
  sameObject a b -> sameObject b a.
Proof. unfold sameObject. intuition congruence. Qed.

(** Between two calls of the loop the reader has moved at least by what
    the earlier call read. *)
Lemma attemptLoop_forward (n a : nat) (req : http.Request)
  (resp : option http.Response) (err : option error)
  (p1 p2 k1 k2 : nat) (rq1 rq2 : http.Request) (d1 d2 : http.DoResult) :
  loopEvents (attemptLoop n a req resp err) !! p1 = Some (EvDo k1 rq1 d1) ->
  loopEvents (attemptLoop n a req resp err) !! p2 = Some (EvDo k2 rq2 d2) ->
  (p1 < p2)%nat ->
  (bytes.i (http.ReqBody (http.afterDo d1 rq1))
   <= bytes.i (http.ReqBody rq2))%nat.
Proof.
  revert a req resp err p1 p2.
  induction n as [|n IH]; intros a req resp err p1 p2; [discriminate|].
  rewrite attemptLoop_S. cbv zeta.
  destruct (attemptSucceeded (DefaultClient a req)); simpl.
  - intros _ H2 Hlt. destruct p2 as [|p2]; [lia | discriminate].
  - intros H1 H2 Hlt.
    destruct p2 as [|p2]; [lia|]. simpl in H2.
    destruct p1 as [|p1]; simpl in H1.
    + injection H1 as <- <- <-.
      destruct (attemptLoop_lookup _ _ _ _ _ _ _ H2)
        as (rq & Heq & _ & Hle & _).
      injection Heq as _ <- _. exact Hle.
    + apply (IH _ _ _ _ _ _ H1 H2). lia.
Qed.

(** A trace splits in one way only around an event of a kind that occurs
    once in it. *)
Lemma split_unique (P : Event -> bool) (A B pre post : list Event)
  (p q : Event) :
  Forall (fun e => P e = false) A ->
  Forall (fun e => P e = false) B ->
  P q = true ->
  A ++ p :: B = pre ++ q :: post ->
  pre = A /\ q = p /\ post = B.
Proof.
  intros HA HB Hq. revert pre.
  induction HA as [|a A Ha HA IH]; intros pre Heq.
  - destruct pre as [|x pre]; simpl in Heq.
    + injection Heq as -> ->. auto.
    + injection Heq as -> ->. exfalso.
      rewrite Forall_forall in HB.
      assert (Hin : q ∈ pre ++ q :: post) by set_solver.
      apply HB in Hin. congruence.
  - destruct pre as [|x pre]; simpl in Heq.
    + injection Heq as -> _. congruence.
    + injection Heq as -> Heq.
      destruct (IH pre Heq) as (-> & -> & ->). auto.
Qed.

Lemma no_split (P : Event -> bool) (A pre post : list Event) (q : Event) :
  Forall (fun e => P e = false) A ->
  P q = true ->
  A <> pre ++ q :: post.
Proof.
  intros HA Hq ->. rewrite Forall_forall in HA.
  assert (Hin : q ∈ pre ++ q :: post) by set_solver.
  apply HA in Hin. congruence.
Qed.

Lemma isDo_notResponsePublish (calls : list Event) :
  Forall (fun e => isDo e = true) calls ->
  Forall (fun e => isResponsePublish e = false) calls.
Proof.
  induction 1 as [|e calls He _ IH]; constructor; [|exact IH].
  destruct e; try discriminate. reflexivity.
Qed.

Lemma publishError_notResponsePublish (spec : crd.MessageQueueTriggerSpec)
  (body : list Byte.byte) :
  Forall (fun e => isResponsePublish e = false) (publishError spec body).
Proof. unfold publishError. destruct (0 <? _)%nat; repeat constructor. Qed.

(** When every attempt comes back without a response, the handler ends in
    the nil-pointer panic of line 153, however many retries it was given. *)
Lemma absent_responses_panic (nats : Nats)
  (trigger : crd.MessageQueueTrigger) (msg : ns.Msg) :
  fission.Type_ (crd.FunctionReference (crd.Spec trigger))
    = FunctionReferenceTypeFunctionName ->
  urlParses (functionUrl nats trigger) = true ->
  (forall k rq, http.resp (DefaultClient k rq) = None) ->
  snd (msgHandler nats trigger msg) = NilPointerPanic.
Proof.
  intros Hty Hurl Hnil.
  destruct (buildRequest_ok nats trigger msg Hurl) as [req0 Hreq0].
  assert (Hnone : forall req,
    loopResp (attemptLoop (Z.to_nat (crd.MaxRetries (crd.Spec trigger))) 0 req
                          None None) = None).
  { intros req.
    pose proof (loop_final_is_last
                  (Z.to_nat (crd.MaxRetries (crd.Spec trigger))) 0 req
                  None None) as Hlast.
    destruct (last (doResults _)) as [d|].
    - destruct Hlast as (-> & _ & (k & rq & Hin) & _).
      apply loop_In_client in Hin. destruct Hin as (-> & _). apply Hnil.
    - now destruct Hlast as (_ & _ & -> & _). }
  destruct (msgHandler_path nats trigger msg)
    as [Hty' | e Hty' Hreq | req l Hty' Hreq Hl Hresp
        | req l resp e Hty' Hreq Hl Hresp Hread
        | req l resp Hty' Hreq Hl Hresp Hread Hbad
        | req l resp Hty' Hreq Hl Hresp Hread Herr Hst]; simpl;
    try reflexivity; try contradiction; try congruence;
    subst l; rewrite Hnone in Hresp; discriminate.
Qed.

(** C5, as amended: a function reference of an unsupported type ends the
    process ([log.Fatalf]) before anything is done for the message; with the
    supported type the handler returns to its caller whenever the final
    attempt came back with a response, and also when the request cannot be
    built; [subscribe] returns an error for a topic that is not valid, and
    otherwise returns just what the broker answers to the subscribe call,
    its error included. *)
Theorem only_unsupported_reference_exits (nats : Nats)
  (trigger : crd.MessageQueueTrigger) (msg : ns.Msg) :
  ((fission.Type_ (crd.FunctionReference (crd.Spec trigger))
      <> FunctionReferenceTypeFunctionName /\
    msgHandler nats trigger msg = ([], ProcessExit 1)) \/
   (fission.Type_ (crd.FunctionReference (crd.Spec trigger))
      = FunctionReferenceTypeFunctionName /\
    (snd (msgHandler nats trigger msg) = Returned \/
     (urlParses (functionUrl nats trigger) = true /\
      finalResponse (fst (msgHandler nats trigger msg)) = None)))) /\
  snd (subscribe nats trigger) =
  (if isTopicValidForNats (crd.Topic (crd.Spec trigger))
   then ns.Subscribe (nsConn nats) (crd.Topic (crd.Spec trigger))
          (ns.applyOptions [ns.DurableName (crd.UID (crd.Metadata trigger));
                            ns.SetManualAckMode])
   else inr ("Not a valid topic: " +:+ crd.Topic (crd.Spec trigger))).
Proof.
  split.
  - destruct (msgHandler_path nats trigger msg)
      as [Hty | e Hty Hreq | req l Hty Hreq Hl Hresp
          | req l resp e Hty Hreq Hl Hresp Hread
          | req l resp Hty Hreq Hl Hresp Hread Hbad
          | req l resp Hty Hreq Hl Hresp Hread Herr Hst]; simpl; auto.
    right. split; [exact Hty|]. right. split.
    + unfold buildRequest, NewRequest in Hreq.
      destruct (urlParses (functionUrl nats trigger)); [reflexivity|].
      discriminate.
    + subst l. unfold finalResponse.
      pose proof (loop_final_is_last
                    (Z.to_nat (crd.MaxRetries (crd.Spec trigger))) 0 req
                    None None) as Hlast.
      destruct (last (doResults _)) as [d|]; [|reflexivity].
      destruct Hlast as (Hr & _). congruence.
  - unfold subscribe.
    destruct (isTopicValidForNats (crd.Topic (crd.Spec trigger))); simpl;
      [|reflexivity].
    destruct (ns.Subscribe _ _ _) as [sub | e]; reflexivity.
Qed.

(** The publish of line 188 comes right after the acknowledge call, which
    comes after all the HTTP attempts; it goes to the trigger's response
    topic, in a run one of whose attempts succeeded, and only the close of
    the response body follows it. *)
Lemma response_site_publish_follows_ack (nats : Nats)
  (trigger : crd.MessageQueueTrigger) (msg : ns.Msg)
  (pre post : list Event) (topic : string) (body : list Byte.byte) :
  fst (msgHandler nats trigger msg)
    = pre ++ EvPublish ToResponseTopic topic body :: post ->
  (exists calls, pre = calls ++ [EvAck] /\
                 Forall (fun e => isDo e = true) calls) /\
  post = [EvCloseBody] /\
  topic = crd.ResponseTopic (crd.Spec trigger) /\
  someAttemptSucceeded (fst (msgHandler nats trigger msg)).
Proof.
  destruct (msgHandler_path nats trigger msg)
    as [Hty | e Hty Hreq | req l Hty Hreq Hl Hresp
        | req l resp e Hty Hreq Hl Hresp Hread
        | req l resp Hty Hreq Hl Hresp Hread Hbad
        | req l resp Hty Hreq Hl Hresp Hread Herr Hst]; simpl; intros Heq.
  - now destruct pre.
  - now destruct pre.
  - exfalso. revert Heq. apply (no_split isResponsePublish); [|reflexivity].
    subst l. apply isDo_notResponsePublish, loopEvents_isDo.
  - exfalso. revert Heq. apply (no_split isResponsePublish); [|reflexivity].
    subst l. apply Forall_app_2;
      [apply isDo_notResponsePublish, loopEvents_isDo | repeat constructor].
  - exfalso. revert Heq. apply (no_split isResponsePublish); [|reflexivity].
    subst l. apply Forall_app_2;
      [apply isDo_notResponsePublish, loopEvents_isDo|].
    apply Forall_app_2;
      [apply publishError_notResponsePublish | repeat constructor].
  - assert (Hcalls : Forall (fun e => isDo e = true) (loopEvents l))
      by (subst l; apply loopEvents_isDo).
    assert (Hsucc : someAttemptSucceeded
              (loopEvents l ++ EvAck ::
               publishResponse (crd.Spec trigger)
                 (ioutil.content (http.Body resp)) ++ [EvCloseBody])).
    { subst l.
      destruct (loop_final_success _ _ _ _ _ Hresp Herr Hst)
        as (k & rq & d & Hin & Hs & _).
      exists k, rq, d. split; [apply in_app_iff; now left | exact Hs]. }
    revert Heq Hsucc. unfold publishResponse.
    destruct (0 <? _)%nat; simpl; intros Heq Hsucc.
    + change (loopEvents l ++ EvAck ::
                EvPublish ToResponseTopic (crd.ResponseTopic (crd.Spec trigger))
                  (ioutil.content (http.Body resp)) :: [EvCloseBody])
        with (loopEvents l ++ [EvAck] ++
                EvPublish ToResponseTopic (crd.ResponseTopic (crd.Spec trigger))
                  (ioutil.content (http.Body resp)) :: [EvCloseBody]) in Heq.
      rewrite app_assoc in Heq.
      apply (split_unique isResponsePublish) in Heq;
        [ | apply Forall_app_2;
              [apply isDo_notResponsePublish; exact Hcalls
              | repeat constructor]
          | repeat constructor | reflexivity ].
      destruct Heq as (-> & Hq & ->). injection Hq as -> ->.
      split; [exists (loopEvents l); auto|]. auto.
    + exfalso. revert Heq.
      apply (no_split isResponsePublish); [|reflexivity].
      apply Forall_app_2;
        [apply isDo_notResponsePublish; exact Hcalls | repeat constructor].
Qed.

Lemma isDo_notErrorPublish (calls : list Event) :
  Forall (fun e => isDo e = true) calls ->
  Forall (fun e => isErrorPublish e = false) calls.
Proof.
  induction 1 as [|e calls He _ IH]; constructor; [|exact IH].
  destruct e; try discriminate. reflexivity.
Qed.

Lemma publishResponse_notErrorPublish (spec : crd.MessageQueueTriggerSpec)
  (body : list Byte.byte) :
  Forall (fun e => isErrorPublish e = false) (publishResponse spec body).
Proof. unfold publishResponse. destruct (0 <? _)%nat; repeat constructor. Qed.

(** The publish of line 173 goes to the trigger's error topic, and is made
    only in a run none of whose attempts succeeded. *)
Lemma error_site_publish_exhausted (nats : Nats)
  (trigger : crd.MessageQueueTrigger) (msg : ns.Msg)
  (pre post : list Event) (topic : string) (body : list Byte.byte) :
  fst (msgHandler nats trigger msg)
    = pre ++ EvPublish ToErrorTopic topic body :: post ->
  topic = crd.ErrorTopic (crd.Spec trigger) /\
  ~ someAttemptSucceeded (fst (msgHandler nats trigger msg)).
Proof.
  destruct (msgHandler_path nats trigger msg)
    as [Hty | e Hty Hreq | req l Hty Hreq Hl Hresp
        | req l resp e Hty Hreq Hl Hresp Hread
        | req l resp Hty Hreq Hl Hresp Hread Hbad
        | req l resp Hty Hreq Hl Hresp Hread Herr Hst]; simpl; intros Heq.
  - now destruct pre.
  - now destruct pre.
  - exfalso. revert Heq. apply (no_split isErrorPublish); [|reflexivity].
    subst l. apply isDo_notErrorPublish, loopEvents_isDo.
  - exfalso. revert Heq. apply (no_split isErrorPublish); [|reflexivity].
    subst l. apply Forall_app_2;
      [apply isDo_notErrorPublish, loopEvents_isDo | repeat constructor].
  - split.
    + assert (Hin : In (EvPublish ToErrorTopic topic body)
                       (loopEvents l ++
                        publishError (crd.Spec trigger)
                          (ioutil.content (http.Body resp)) ++
                        [EvCloseBody])).
      { rewrite Heq. apply in_app_iff. right. now left. }
      apply in_app_iff in Hin. destruct Hin as [Hin | Hin].
      * exfalso. subst l.
        pose proof (loopEvents_isDo
                      (Z.to_nat (crd.MaxRetries (crd.Spec trigger))) 0 req
                      None None) as Hdo.
        rewrite Forall_forall in Hdo.
        apply list_elem_of_In, Hdo in Hin. discriminate.
      * unfold publishError in Hin.
        destruct (0 <? _)%nat; simpl in Hin.
        -- destruct Hin as [Hin | [Hin | []]]; [|discriminate].
           now injection Hin as <- _.
        -- destruct Hin as [Hin | []]. discriminate.
    + intros (k & rq & d & Hin & Hs).
      apply In_Do_app in Hin; [|auto with tail]. subst l.
      destruct (loop_success_is_final _ _ _ _ _ _ _ _ Hin Hs) as [Hr Hr'].
      apply attemptSucceeded_iff in Hs. destruct Hs as (r & Hr0 & He & Hs).
      assert (r = resp) by congruence. subst r.
      destruct Hbad as [Hbad | Hbad]; congruence.
  - exfalso. revert Heq. apply (no_split isErrorPublish); [|reflexivity].
    subst l. apply Forall_app_2;
      [apply isDo_notErrorPublish, loopEvents_isDo|].
    constructor; [reflexivity|].
    apply Forall_app_2;
      [apply publishResponse_notErrorPublish | repeat constructor].
Qed.

(** C6, as amended: in a run one of whose attempts succeeded, and in every
    run of a trigger whose error topic is not its response topic, a publish
    to the response topic, whichever line makes it, comes right after the
    acknowledge call, which comes after all the HTTP attempts; it is the
    publish of line 188, made because an attempt succeeded, and only the
    close of the response body follows it. *)
Theorem ack_precedes_response_topic_publish (nats : Nats)
  (trigger : crd.MessageQueueTrigger) (msg : ns.Msg)
  (pre post : list Event) (site : PublishSite) (body : list Byte.byte) :
  crd.ErrorTopic (crd.Spec trigger) <> crd.ResponseTopic (crd.Spec trigger)
  \/ someAttemptSucceeded (fst (msgHandler nats trigger msg)) ->
  fst (msgHandler nats trigger msg)
    = pre ++ EvPublish site (crd.ResponseTopic (crd.Spec trigger)) body
          :: post ->
  site = ToResponseTopic /\
  (exists calls, pre = calls ++ [EvAck] /\
                 Forall (fun e => isDo e = true) calls) /\
  In EvAck pre /\
  post = [EvCloseBody] /\
  someAttemptSucceeded (fst (msgHandler nats trigger msg)).
Proof.
  intros Hcond Heq. destruct site.
  - exfalso.
    destruct (error_site_publish_exhausted _ _ _ _ _ _ _ Heq)
      as [Htopic Hnone].
    destruct Hcond as [Hne | Hs]; [congruence | exact (Hnone Hs)].
  - destruct (response_site_publish_follows_ack _ _ _ _ _ _ _ Heq)
      as ((calls & -> & Hcalls) & -> & _ & Hs).
    split; [reflexivity|]. split; [eauto|].
    split; [apply in_app_iff; right; now left | auto].
Qed.

(** C7: when the topic of the trigger does not pass the channel-name check,
    [subscribe] returns an error and never calls the broker. *)
Theorem invalid_topic_never_subscribes (nats : Nats)
  (trigger : crd.MessageQueueTrigger) :
  isTopicValidForNats (crd.Topic (crd.Spec trigger)) = false ->
  subscribe nats trigger
    = ([], inr ("Not a valid topic: " +:+ crd.Topic (crd.Spec trigger))).
Proof. intros Hbad. unfold subscribe. now rewrite Hbad. Qed.

(** C8, as amended: every HTTP attempt is a POST to the function's URL that
    carries the headers X-Fission-MQTrigger-Topic,
    X-Fission-MQTrigger-RespTopic, X-Fission-MQTrigger-ErrorTopic and
    Content-Type with the trigger's topic, response topic, error topic and
    content type; its body is a reader over the payload of the message,
    which at the first attempt stands at the start of the payload. *)
Theorem request_headers_and_body (nats : Nats)
  (trigger : crd.MessageQueueTrigger) (msg : ns.Msg)
  (k : nat) (rq : http.Request) (d : http.DoResult) :
  In (EvDo k rq d) (fst (msgHandler nats trigger msg)) ->
  http.Method rq = "POST" /\
  http.URL rq = functionUrl nats trigger /\
  carries rq "X-Fission-MQTrigger-Topic" (crd.Topic (crd.Spec trigger)) /\
  carries rq "X-Fission-MQTrigger-RespTopic"
             (crd.ResponseTopic (crd.Spec trigger)) /\
  carries rq "X-Fission-MQTrigger-ErrorTopic"
             (crd.ErrorTopic (crd.Spec trigger)) /\
  carries rq "Content-Type" (crd.ContentType (crd.Spec trigger)) /\
  bytes.s (http.ReqBody rq) = ns.Data msg /\
  (k = 0%nat -> bytes.unread (http.ReqBody rq) = ns.Data msg).
Proof.
  assert (Hloop : forall req n,
    buildRequest nats trigger msg = inl req ->
    In (EvDo k rq d) (loopEvents (attemptLoop n 0 req None None)) ->
    http.Method rq = "POST" /\
    http.URL rq = functionUrl nats trigger /\
    carries rq "X-Fission-MQTrigger-Topic" (crd.Topic (crd.Spec trigger)) /\
    carries rq "X-Fission-MQTrigger-RespTopic"
               (crd.ResponseTopic (crd.Spec trigger)) /\
    carries rq "X-Fission-MQTrigger-ErrorTopic"
               (crd.ErrorTopic (crd.Spec trigger)) /\
    carries rq "Content-Type" (crd.ContentType (crd.Spec trigger)) /\
    bytes.s (http.ReqBody rq) = ns.Data msg /\
    (k = 0%nat -> bytes.unread (http.ReqBody rq) = ns.Data msg)).
  { intros req n Hreq Hin.
    destruct (buildRequest_spec _ _ _ _ Hreq)
      as (Hm & Hu & Hb & H1 & H2 & H3 & H4).
    apply list_elem_of_In, list_elem_of_lookup in Hin.
    destruct Hin as [pos Hpos].
    destruct (attemptLoop_lookup _ _ _ _ _ _ _ Hpos)
      as (rq' & Heq & (Sm & Su & Sh & Ss) & _ & Hfirst).
    injection Heq as -> -> _. simpl in Hfirst.
    unfold carries. rewrite <- Sm, <- Su, <- Sh, <- Ss, Hb.
    repeat split; auto.
    intros ->. rewrite (Hfirst eq_refl), Hb. reflexivity. }
  destruct (msgHandler_path nats trigger msg)
    as [Hty | e Hty Hreq | req l Hty Hreq Hl Hresp
        | req l resp e Hty Hreq Hl Hresp Hread
        | req l resp Hty Hreq Hl Hresp Hread Hbad
        | req l resp Hty Hreq Hl Hresp Hread Herr Hst]; simpl; intros Hin;
    try contradiction; subst l.
  - eapply Hloop; eauto.
  - apply In_Do_app in Hin; [|auto with tail]. eapply Hloop; eauto.
  - apply In_Do_app in Hin; [|auto with tail]. eapply Hloop; eauto.
  - apply In_Do_app in Hin; [|auto with tail]. eapply Hloop; eauto.
Qed.

(** C10: all the attempts of a run are made with the one request built
    before the loop, whose body is a reader over the payload; once an
    attempt has read that reader to its end, every later attempt finds it
    empty, and so does not carry the payload of the message again (unless
    that payload is itself empty). *)
Theorem later_attempts_find_body_consumed (nats : Nats)
  (trigger : crd.MessageQueueTrigger) (msg : ns.Msg)
  (k1 k2 : nat) (rq1 rq2 : http.Request) (d1 d2 : http.DoResult) :
  In (EvDo k1 rq1 d1) (fst (msgHandler nats trigger msg)) ->
  In (EvDo k2 rq2 d2) (fst (msgHandler nats trigger msg)) ->
  (k1 < k2)%nat ->
  (length (bytes.unread (http.ReqBody rq1)) <= http.bodyRead d1)%nat ->
  sameObject rq1 rq2 /\
  bytes.s (http.ReqBody rq2) = ns.Data msg /\
  bytes.unread (http.ReqBody rq2) = [] /\
  (ns.Data msg <> [] -> bytes.unread (http.ReqBody rq2) <> ns.Data msg).
Proof.
  assert (Hloop : forall req n,
    buildRequest nats trigger msg = inl req ->
    In (EvDo k1 rq1 d1) (loopEvents (attemptLoop n 0 req None None)) ->
    In (EvDo k2 rq2 d2) (loopEvents (attemptLoop n 0 req None None)) ->
    (k1 < k2)%nat ->
    (length (bytes.unread (http.ReqBody rq1)) <= http.bodyRead d1)%nat ->
    sameObject rq1 rq2 /\
    bytes.s (http.ReqBody rq2) = ns.Data msg /\
    bytes.unread (http.ReqBody rq2) = [] /\
    (ns.Data msg <> [] -> bytes.unread (http.ReqBody rq2) <> ns.Data msg)).
  { intros req n Hreq Hin1 Hin2 Hlt Hall.
    destruct (buildRequest_spec _ _ _ _ Hreq) as (_ & _ & Hb & _).
    apply loop_In_client in Hin1. destruct Hin1 as (_ & S1 & Hp1 & _).
    apply loop_In_client in Hin2. destruct Hin2 as (_ & S2 & Hp2 & _).
    pose proof (attemptLoop_forward _ _ _ _ _ _ _ _ _ _ _ _ _ Hp1 Hp2
                  ltac:(lia)) as Hfw.
    assert (Hsame : sameObject rq1 rq2)
      by (eapply sameObject_trans; [apply sameObject_sym|]; eauto).
    assert (Hs2 : bytes.s (http.ReqBody rq2) = ns.Data msg).
    { destruct S2 as (_ & _ & _ & <-). now rewrite Hb. }
    assert (Hempty : bytes.unread (http.ReqBody rq2) = []).
    { destruct Hsame as (_ & _ & _ & Hs).
      simpl in Hfw. unfold bytes.unread in *.
      rewrite length_drop in Hall, Hfw.
      apply drop_ge. rewrite <- Hs. lia. }
    repeat split; try apply Hsame; auto.
    rewrite Hempty. congruence. }
  destruct (msgHandler_path nats trigger msg)
    as [Hty | e Hty Hreq | req l Hty Hreq Hl Hresp
        | req l resp e Hty Hreq Hl Hresp Hread
        | req l resp Hty Hreq Hl Hresp Hread Hbad
        | req l resp Hty Hreq Hl Hresp Hread Herr Hst]; simpl;
    intros Hin1 Hin2; try contradiction; subst l.
  - eapply Hloop; eauto.
  - apply In_Do_app in Hin1, Hin2; auto with tail. eapply Hloop; eauto.
  - apply In_Do_app in Hin1, Hin2; auto with tail. eapply Hloop; eauto.
  - apply In_Do_app in Hin1, Hin2; auto with tail. eapply Hloop; eauto.
Qed.

(** ** Further properties of the handler *)

Lemma attemptLoop_length_le (n a : nat) (req : http.Request)
  (resp : option http.Response) (err : option error) :
  (length (loopEvents (attemptLoop n a req resp err)) <= n)%nat.
Proof.
  revert a req resp err.
  induction n as [|n IH]; intros a req resp err; [simpl; lia|].
  rewrite attemptLoop_S. cbv zeta.
  destruct (attemptSucceeded (DefaultClient a req)); simpl; [lia|].
  specialize (IH (S a) (http.afterDo (DefaultClient a req) req)
                 (http.resp (DefaultClient a req))
                 (http.err (DefaultClient a req))). lia.
Qed.

Lemma attemptLoop_nonempty (n a : nat) (req : http.Request)
  (resp : option http.Response) (err : option error) :
  loopEvents (attemptLoop n a req resp err) = [] <-> n = 0%nat.
Proof.
  destruct n as [|n]; [simpl; tauto|].
  rewrite attemptLoop_S. cbv zeta.
  destruct (attemptSucceeded (DefaultClient a req)); simpl;
    split; discriminate.
Qed.



(** X2: the handler never makes more than [MaxRetries] attempts, numbers
    them from 0 in the order it makes them, and stops at the first success:
    every attempt but the last one of a run failed. *)
Theorem attempts_bounded_and_stop_at_success (nats : Nats)
  (trigger : crd.MessageQueueTrigger) (msg : ns.Msg) :
  (length (doResults (fst (msgHandler nats trigger msg)))
   <= Z.to_nat (crd.MaxRetries (crd.Spec trigger)))%nat /\
  (forall pos k rq d,
      fst (msgHandler nats trigger msg) !! pos = Some (EvDo k rq d) ->
      k = pos /\ d = DefaultClient k rq) /\
  (forall pre d post,
      doResults (fst (msgHandler nats trigger msg)) = pre ++ d :: post ->
      post <> [] -> attemptSucceeded d = false).
Proof.
  assert (Hloop : forall req tail,
    Forall (fun e => isDo e = false) tail ->
    let l := attemptLoop (Z.to_nat (crd.MaxRetries (crd.Spec trigger))) 0 req
                         None None in
    (length (doResults (loopEvents l ++ tail))
     <= Z.to_nat (crd.MaxRetries (crd.Spec trigger)))%nat /\
    (forall pos k rq d,
        (loopEvents l ++ tail) !! pos = Some (EvDo k rq d) ->
        k = pos /\ d = DefaultClient k rq) /\
    (forall pre d post,
        doResults (loopEvents l ++ tail) = pre ++ d :: post ->
        post <> [] -> attemptSucceeded d = false)).
  { intros req tail Htail l. subst l.
    rewrite doResults_app, (doResults_notDo tail Htail), app_nil_r.
    split; [|split].
    - rewrite doResults_length_isDo by apply loopEvents_isDo.
      apply attemptLoop_length_le.
    - intros pos k rq d Hpos.
      apply lookup_app_Some in Hpos. destruct Hpos as [Hl | [_ Ht]].
      + destruct (attemptLoop_lookup _ _ _ _ _ _ _ Hl) as (rq' & Heq & _).
        injection Heq as -> -> ->. auto.
      + rewrite Forall_lookup in Htail. apply Htail in Ht. discriminate.
    - intros pre d post Heq Hpost.
      destruct (attemptLoop_shape
                  (Z.to_nat (crd.MaxRetries (crd.Spec trigger))) 0 req
                  None None)
        as [(_ & He & _)
           | (pre0 & k0 & rq0 & d0 & He & _ & _ & Hpre0 & _)];
        rewrite He, ?doResults_app in Heq; simpl in Heq.
      + now destruct pre.
      + assert (Hfailed : Forall (fun d => attemptSucceeded d = false)
                                 (doResults pre0)).
        { clear He Heq. induction Hpre0 as [|e es He _ IH]; [constructor|].
          destruct e; try discriminate. simpl. constructor; [|exact IH].
          simpl in He. now destruct (attemptSucceeded d1). }
        destruct post as [|d' post _] using rev_ind; [congruence|].
        change (pre ++ d :: post ++ [d']) with (pre ++ (d :: post) ++ [d'])
          in Heq.
        rewrite app_assoc in Heq.
        apply app_inj_tail in Heq as [Heq _].
        rewrite Heq in Hfailed. apply Forall_app in Hfailed as [_ Hf].
        now apply Forall_cons in Hf as [Hf _]. }
  destruct (msgHandler_path nats trigger msg)
    as [Hty | e Hty Hreq | req l Hty Hreq Hl Hresp
        | req l resp e Hty Hreq Hl Hresp Hread
        | req l resp Hty Hreq Hl Hresp Hread Hbad
        | req l resp Hty Hreq Hl Hresp Hread Herr Hst]; simpl.
  - split; [lia|]. split; [discriminate|]. intros pre d post Heq.
    now destruct pre.
  - split; [lia|]. split; [discriminate|]. intros pre d post Heq.
    now destruct pre.
  - subst l. rewrite <- (app_nil_r (loopEvents _)). apply Hloop. constructor.
  - subst l. apply Hloop. auto with tail.
  - subst l. apply Hloop. auto with tail.
  - subst l.
    apply (Hloop req
             (EvAck :: publishResponse (crd.Spec trigger)
                         (ioutil.content (http.Body resp)) ++ [EvCloseBody])).
    auto with tail.
Qed.

(** The loop is left at the first attempt that succeeds. *)
Lemma attemptLoop_first_success (n a : nat) (req : http.Request)
  (resp : option http.Response) (err : option error)
  (k : nat) (r : http.Response) :
  (a <= k < a + n)%nat ->
  (forall j rq, (a <= j < k)%nat ->
                attemptSucceeded (DefaultClient j rq) = false) ->
  (forall rq, attemptSucceeded (DefaultClient k rq) = true /\
              http.resp (DefaultClient k rq) = Some r) ->
  length (loopEvents (attemptLoop n a req resp err)) = S (k - a) /\
  loopResp (attemptLoop n a req resp err) = Some r /\
  loopErr (attemptLoop n a req resp err) = None.
Proof.
  revert a req resp err.
  induction n as [|n IH]; intros a req resp err Hk Hfail Hok; [lia|].
  rewrite attemptLoop_S. cbv zeta.
  destruct (Nat.eq_dec a k) as [-> | Hne].
  - destruct (Hok req) as [Hs Hr]. rewrite Hs. simpl.
    replace (k - k)%nat with 0%nat by lia.
    apply attemptSucceeded_iff in Hs. destruct Hs as (r' & _ & He & _).
    auto.
  - rewrite Hfail by lia. simpl.
    destruct (IH (S a) (http.afterDo (DefaultClient a req) req)
                 (http.resp (DefaultClient a req))
                 (http.err (DefaultClient a req)))
      as (Hlen & Hr & He); [lia | intros; apply Hfail; lia | exact Hok |].
    rewrite Hlen. repeat split; auto. f_equal. lia.
Qed.

(** X3: when the endpoint fails at the attempts before the [k]-th and
    succeeds at the [k]-th, within the retries the trigger allows, with a
    body that can be read, the handler makes exactly [k + 1] calls, then
    acknowledges, then publishes that body to the response topic if one is
    set, then closes the body and returns. *)
Theorem success_at_attempt_k (nats : Nats)
  (trigger : crd.MessageQueueTrigger) (msg : ns.Msg)
  (k : nat) (r : http.Response) :
  fission.Type_ (crd.FunctionReference (crd.Spec trigger))
    = FunctionReferenceTypeFunctionName ->
  urlParses (functionUrl nats trigger) = true ->
  (Z.of_nat k < crd.MaxRetries (crd.Spec trigger))%Z ->
  (forall j rq, (j < k)%nat ->
                attemptSucceeded (DefaultClient j rq) = false) ->
  (forall rq, attemptSucceeded (DefaultClient k rq) = true /\
              http.resp (DefaultClient k rq) = Some r) ->
  ioutil.readErr (http.Body r) = None ->
  exists calls,
    msgHandler nats trigger msg =
      (calls ++ [EvAck] ++
       publishResponse (crd.Spec trigger) (ioutil.content (http.Body r)) ++
       [EvCloseBody], Returned) /\
    length calls = S k /\
    Forall (fun e => isDo e = true) calls.
Proof.
  intros Hty Hurl Hk Hfail Hok Hread.
  assert (Hloop : forall req,
    let l := attemptLoop (Z.to_nat (crd.MaxRetries (crd.Spec trigger))) 0 req
                         None None in
    length (loopEvents l) = S k /\ loopResp l = Some r /\ loopErr l = None).
  { intros req l. subst l.
    destruct (attemptLoop_first_success
                (Z.to_nat (crd.MaxRetries (crd.Spec trigger))) 0 req
                None None k r) as (Hlen & Hr & He);
      [lia | intros; apply Hfail; lia | exact Hok |].
    rewrite Hlen. repeat split; auto. f_equal. lia. }
  assert (Hst : http.StatusCode r = 200%Z).
  { destruct (Hok {| http.Method := EmptyString; http.URL := EmptyString;
                     http.Header_ := ∅;
                     http.ReqBody := bytes.NewReader [] |}) as [Hs Hr].
    apply attemptSucceeded_iff in Hs. destruct Hs as (r' & Hr' & _ & Hs).
    congruence. }
  destruct (buildRequest_ok nats trigger msg Hurl) as [req0 Hreq0].
  destruct (msgHandler_path nats trigger msg)
    as [Hty' | e Hty' Hreq | req l Hty' Hreq Hl Hresp
        | req l resp e Hty' Hreq Hl Hresp Hread'
        | req l resp Hty' Hreq Hl Hresp Hread' Hbad
        | req l resp Hty' Hreq Hl Hresp Hread' Herr Hst'];
    try contradiction; try congruence; subst l;
    destruct (Hloop req) as (Hlen & Hr & He).
  - congruence.
  - assert (resp = r) by congruence. subst resp. congruence.
  - assert (resp = r) by congruence. subst resp.
    destruct Hbad; congruence.
  - assert (resp = r) by congruence. subst resp.
    exists (loopEvents
              (attemptLoop (Z.to_nat (crd.MaxRetries (crd.Spec trigger))) 0
                           req None None)).
    split; [reflexivity|]. split; [exact Hlen | apply loopEvents_isDo].
Qed.

(** X4: the handler makes no HTTP call at all exactly when the function
    reference is of an unsupported type, or the URL of the function does not
    parse, or [MaxRetries] is zero or negative. *)
Theorem no_attempt_iff (nats : Nats)
  (trigger : crd.MessageQueueTrigger) (msg : ns.Msg) :
  doResults (fst (msgHandler nats trigger msg)) = [] <->
  (fission.Type_ (crd.FunctionReference (crd.Spec trigger))
     <> FunctionReferenceTypeFunctionName \/
   urlParses (functionUrl nats trigger) = false \/
   (crd.MaxRetries (crd.Spec trigger) <= 0)%Z).
Proof.
  assert (Hb : forall req e,
    buildRequest nats trigger msg = inr e ->
    buildRequest nats trigger msg = inl req -> False) by congruence.
  assert (Hurl : forall req, buildRequest nats trigger msg = inl req ->
                             urlParses (functionUrl nats trigger) = true).
  { intros req. unfold buildRequest, NewRequest.
    destruct (urlParses (functionUrl nats trigger)); [auto | discriminate]. }
  assert (Hloop : forall req tail,
    Forall (fun e => isDo e = false) tail ->
    doResults
      (loopEvents
         (attemptLoop (Z.to_nat (crd.MaxRetries (crd.Spec trigger))) 0 req
                      None None) ++ tail) = [] <->
    (crd.MaxRetries (crd.Spec trigger) <= 0)%Z).
  { intros req tail Htail.
    rewrite doResults_app, (doResults_notDo tail Htail), app_nil_r.
    rewrite <- length_zero_iff_nil,
      doResults_length_isDo by apply loopEvents_isDo.
    rewrite length_zero_iff_nil, attemptLoop_nonempty. lia. }
  destruct (msgHandler_path nats trigger msg)
    as [Hty | e Hty Hreq | req l Hty Hreq Hl Hresp
        | req l resp e Hty Hreq Hl Hresp Hread
        | req l resp Hty Hreq Hl Hresp Hread Hbad
        | req l resp Hty Hreq Hl Hresp Hread Herr Hst]; simpl.
  - tauto.
  - split; [intros _ | reflexivity]. right. left.
    unfold buildRequest, NewRequest in Hreq.
    destruct (urlParses (functionUrl nats trigger)); [discriminate | auto].
  - subst l. rewrite <- (app_nil_r (loopEvents _)).
    rewrite Hloop by constructor. specialize (Hurl _ Hreq).
    intuition congruence.
  - subst l. rewrite Hloop by auto with tail. specialize (Hurl _ Hreq).
    intuition congruence.
  - subst l. rewrite Hloop by auto with tail. specialize (Hurl _ Hreq).
    intuition congruence.
  - subst l.
    rewrite (Hloop req
               (EvAck :: publishResponse (crd.Spec trigger)
                           (ioutil.content (http.Body resp)) ++
                [EvCloseBody])) by auto with tail.
    specialize (Hurl _ Hreq). intuition congruence.
Qed.

Lemma finalResponse_loop (n a : nat) (req : http.Request)
  (err : option error) (rest : list Event) :
  Forall (fun e => isDo e = false) rest ->
  finalResponse (loopEvents (attemptLoop n a req None err) ++ rest) =
  loopResp (attemptLoop n a req None err).
Proof.
  intros Hrest. unfold finalResponse.
  rewrite doResults_app, (doResults_notDo rest Hrest), app_nil_r.
  pose proof (loop_final_is_last n a req None err) as Hlast.
  destruct (last (doResults _)) as [d|].
  - now destruct Hlast as (-> & _).
  - now destruct Hlast as (_ & _ & -> & _).
Qed.

(** X5: how a run ends.  It ends the process exactly when the function
    reference is of an unsupported type; it panics exactly when, the type
    being supported and the request built, the last attempt came back with
    no response or no attempt was made; in every other case it returns. *)
Theorem termination_cases (nats : Nats)
  (trigger : crd.MessageQueueTrigger) (msg : ns.Msg) :
  (snd (msgHandler nats trigger msg) = ProcessExit 1 <->
   fission.Type_ (crd.FunctionReference (crd.Spec trigger))
     <> FunctionReferenceTypeFunctionName) /\
  (snd (msgHandler nats trigger msg) = NilPointerPanic <->
   fission.Type_ (crd.FunctionReference (crd.Spec trigger))
     = FunctionReferenceTypeFunctionName /\
   urlParses (functionUrl nats trigger) = true /\
   finalResponse (fst (msgHandler nats trigger msg)) = None) /\
  (snd (msgHandler nats trigger msg) = Returned <->
   fission.Type_ (crd.FunctionReference (crd.Spec trigger))
     = FunctionReferenceTypeFunctionName /\
   (urlParses (functionUrl nats trigger) = false \/
    finalResponse (fst (msgHandler nats trigger msg)) <> None)).
Proof.
  assert (Hurl : forall req, buildRequest nats trigger msg = inl req ->
                             urlParses (functionUrl nats trigger) = true).
  { intros req. unfold buildRequest, NewRequest.
    destruct (urlParses (functionUrl nats trigger)); [auto | discriminate]. }
  assert (Hnourl : forall e, buildRequest nats trigger msg = inr e ->
                             urlParses (functionUrl nats trigger) = false).
  { intros e. unfold buildRequest, NewRequest.
    destruct (urlParses (functionUrl nats trigger)); [discriminate | auto]. }
  destruct (msgHandler_path nats trigger msg)
    as [Hty | e Hty Hreq | req l Hty Hreq Hl Hresp
        | req l resp e Hty Hreq Hl Hresp Hread
        | req l resp Hty Hreq Hl Hresp Hread Hbad
        | req l resp Hty Hreq Hl Hresp Hread Herr Hst]; simpl.
  - intuition congruence.
  - specialize (Hnourl _ Hreq). intuition congruence.
  - specialize (Hurl _ Hreq). subst l.
    rewrite <- (app_nil_r (loopEvents _)).
    rewrite finalResponse_loop by constructor.
    intuition congruence.
  - specialize (Hurl _ Hreq). subst l.
    rewrite finalResponse_loop by auto with tail.
    intuition congruence.
  - specialize (Hurl _ Hreq). subst l.
    rewrite finalResponse_loop by auto with tail.
    intuition congruence.
  - specialize (Hurl _ Hreq). subst l.
    rewrite (finalResponse_loop _ _ _ _
               (EvAck :: publishResponse (crd.Spec trigger)
                           (ioutil.content (http.Body resp)) ++
                [EvCloseBody])) by auto with tail.
    intuition congruence.
Qed.

(** Every attempt of a run is made with the request built before the loop,
    up to how far its body has been read. *)
Lemma attempt_uses_built_request (nats : Nats)
  (trigger : crd.MessageQueueTrigger) (msg : ns.Msg)
  (k : nat) (rq : http.Request) (d : http.DoResult) :
  In (EvDo k rq d) (fst (msgHandler nats trigger msg)) ->
  exists req, buildRequest nats trigger msg = inl req /\ sameObject req rq.
Proof.
  destruct (msgHandler_path nats trigger msg)
    as [Hty | e Hty Hreq | req l Hty Hreq Hl Hresp
        | req l resp e Hty Hreq Hl Hresp Hread
        | req l resp Hty Hreq Hl Hresp Hread Hbad
        | req l resp Hty Hreq Hl Hresp Hread Herr Hst]; simpl; intros Hin;
    try contradiction; subst l;
    try (apply In_Do_app in Hin; [|auto with tail]);
    apply loop_In_client in Hin; destruct Hin as (_ & Hsame & _); eauto.
Qed.



(** What one call reads and what it leaves make up what was there. *)
Lemma bytesRead_afterDo (d : http.DoResult) (rq : http.Request) :
  bytesRead rq d ++ bytes.unread (http.ReqBody (http.afterDo d rq))
  = bytes.unread (http.ReqBody rq).
Proof.
  unfold bytesRead, bytes.unread. simpl.
  rewrite <- drop_drop.
  destruct (Nat.le_ge_cases (http.bodyRead d)
              (length (drop (bytes.i (http.ReqBody rq))
                            (bytes.s (http.ReqBody rq))))) as [Hle | Hge].
  - rewrite Nat.min_l by exact Hle. apply take_drop.
  - rewrite Nat.min_r by exact Hge.
    rewrite take_ge by exact Hge. rewrite drop_all. apply app_nil_r.
Qed.

Lemma attemptLoop_sent (n a : nat) (req : http.Request)
  (resp : option http.Response) (err : option error) :
  sentBytes (loopEvents (attemptLoop n a req resp err)) ++
  bytes.unread (http.ReqBody (loopReq (attemptLoop n a req resp err)))
  = bytes.unread (http.ReqBody req).
Proof.
  revert a req resp err.
  induction n as [|n IH]; intros a req resp err; [reflexivity|].
  rewrite attemptLoop_S. cbv zeta.
  destruct (attemptSucceeded (DefaultClient a req)); simpl.
  - rewrite app_nil_r. apply bytesRead_afterDo.
  - rewrite <- app_assoc, IH. apply bytesRead_afterDo.
Qed.

Lemma sentBytes_notDo (rest : list Event) :
  Forall (fun e => isDo e = false) rest -> sentBytes rest = [].
Proof.
  induction 1 as [|e rest He _ IH]; [reflexivity|].
  destruct e; try discriminate; exact IH.
Qed.

(** X7: over all the attempts of a run taken together, the bytes read from
    the request body, in the order they are read, are an initial part of the
    payload of the message: no byte of it is handed out twice, whatever the
    number of retries. *)
Theorem payload_is_read_at_most_once (nats : Nats)
  (trigger : crd.MessageQueueTrigger) (msg : ns.Msg) :
  exists rest,
    sentBytes (fst (msgHandler nats trigger msg)) ++ rest = ns.Data msg.
Proof.
  assert (Hloop : forall req tail,
    buildRequest nats trigger msg = inl req ->
    Forall (fun e => isDo e = false) tail ->
    exists rest,
      sentBytes
        (loopEvents
           (attemptLoop (Z.to_nat (crd.MaxRetries (crd.Spec trigger))) 0 req
                        None None) ++ tail) ++ rest = ns.Data msg).
  { intros req tail Hreq Htail.
    destruct (buildRequest_spec _ _ _ _ Hreq) as (_ & _ & Hb & _).
    unfold sentBytes. rewrite flat_map_app.
    fold (sentBytes tail). rewrite (sentBytes_notDo tail Htail), app_nil_r.
    eexists. fold (sentBytes (loopEvents
      (attemptLoop (Z.to_nat (crd.MaxRetries (crd.Spec trigger))) 0 req
                   None None))).
    rewrite attemptLoop_sent, Hb. reflexivity. }
  destruct (msgHandler_path nats trigger msg)
    as [Hty | e Hty Hreq | req l Hty Hreq Hl Hresp
        | req l resp e Hty Hreq Hl Hresp Hread
        | req l resp Hty Hreq Hl Hresp Hread Hbad
        | req l resp Hty Hreq Hl Hresp Hread Herr Hst]; simpl.
  - now exists (ns.Data msg).
  - now exists (ns.Data msg).
  - subst l. rewrite <- (app_nil_r (loopEvents _)).
    apply Hloop; [exact Hreq | constructor].
  - subst l. apply Hloop; [exact Hreq | auto with tail].
  - subst l. apply Hloop; [exact Hreq | auto with tail].
  - subst l.
    apply (Hloop req
             (EvAck :: publishResponse (crd.Spec trigger)
                         (ioutil.content (http.Body resp)) ++ [EvCloseBody]));
      [exact Hreq | auto with tail].
Qed.

Lemma substring_all (p : string) :
  String.substring 0 (String.length p) p = p.
Proof. induction p as [|c p IH]; simpl; [reflexivity | now rewrite IH]. Qed.

(** X8: the URL of the function is the router's URL, one slash, and the
    path [UrlForFunction] gives for the function's name, less one leading
    slash when that path has one: a path with a leading slash does not give
    a doubled slash, and a path without one is not cut. *)
Theorem functionUrl_one_slash (nats : Nats)
  (trigger : crd.MessageQueueTrigger) :
  match UrlForFunction
          (fission.Name (crd.FunctionReference (crd.Spec trigger))) with
  | String "/" path =>
      functionUrl nats trigger = routerUrl nats +:+ "/" +:+ path
  | path =>
      functionUrl nats trigger = routerUrl nats +:+ "/" +:+ path
  end.
Proof.
  unfold functionUrl, strings.TrimPrefix.
  destruct (UrlForFunction _) as [|c path]; [reflexivity|].
  destruct c as [[] [] [] [] [] [] [] []]; try reflexivity.
  simpl. rewrite Nat.sub_0_r, substring_all.
  now destruct path.
Qed.

(** X9: the header map of every attempt holds the four entries of the
    handler and no other; [Header.Add] files them under the canonical form
    of their names, so the topic headers are held under
    X-Fission-Mqtrigger-Topic, X-Fission-Mqtrigger-Resptopic and
    X-Fission-Mqtrigger-Errortopic. *)
Theorem request_header_map (nats : Nats)
  (trigger : crd.MessageQueueTrigger) (msg : ns.Msg)
  (k : nat) (rq : http.Request) (d : http.DoResult) :
  In (EvDo k rq d) (fst (msgHandler nats trigger msg)) ->
  http.Header_ rq =
    <[ "X-Fission-Mqtrigger-Topic" := [crd.Topic (crd.Spec trigger)] ]>
    (<[ "X-Fission-Mqtrigger-Resptopic" :=
          [crd.ResponseTopic (crd.Spec trigger)] ]>
    (<[ "X-Fission-Mqtrigger-Errortopic" :=
          [crd.ErrorTopic (crd.Spec trigger)] ]>
    (<[ "Content-Type" := [crd.ContentType (crd.Spec trigger)] ]> ∅))).
Proof.
  intros Hin.
  destruct (attempt_uses_built_request _ _ _ _ _ _ Hin)
    as (req & Hreq & (_ & _ & <- & _)).
  unfold buildRequest, NewRequest in Hreq.
  destruct (urlParses (functionUrl nats trigger)); [|discriminate].
  injection Hreq as <-. simpl. vm_compute. reflexivity.
Qed.

(** X11: with a valid topic [subscribe] calls the broker once, on the
    trigger's topic, with the trigger's UID as durable name and manual
    acknowledgement on, and returns what the broker answers; with an invalid
    one it calls nothing and returns an error. *)
Theorem subscribe_durable_manual_ack (nats : Nats)
  (trigger : crd.MessageQueueTrigger) :
  subscribe nats trigger =
  if isTopicValidForNats (crd.Topic (crd.Spec trigger))
  then ([EvSubscribe (crd.Topic (crd.Spec trigger))
           {| ns.DurableName_ := crd.UID (crd.Metadata trigger);
              ns.ManualAcks := true |}],
        ns.Subscribe (nsConn nats) (crd.Topic (crd.Spec trigger))
           {| ns.DurableName_ := crd.UID (crd.Metadata trigger);
              ns.ManualAcks := true |})
  else ([], inr ("Not a valid topic: " +:+ crd.Topic (crd.Spec trigger))).
Proof.
  unfold subscribe.
  destruct (isTopicValidForNats (crd.Topic (crd.Spec trigger))); simpl;
    [|reflexivity].
  change (ns.applyOptions
            [ns.DurableName (crd.UID (crd.Metadata trigger));
             ns.SetManualAckMode])
    with {| ns.DurableName_ := crd.UID (crd.Metadata trigger);
            ns.ManualAcks := true |}.
  destruct (ns.Subscribe _ _ _); reflexivity.
Qed.

(** X12: [makeNatsMessageQueue] hands back the error of a failed connect
    and no queue; on a connection it gives a queue that subscribes through
    that very connection and whose handler sends every request to the router
    URL it was given, the broker URL of the configuration playing no part in
    it. *)
Theorem makeNatsMessageQueue_uses_connection (routerUrl0 : string)
  (mqCfg : MessageQueueConfig) :
  match Connect natsClusterID natsClientID (Url mqCfg) with
  | inr e => makeNatsMessageQueue routerUrl0 mqCfg = inr e
  | inl conn =>
      exists nats,
        makeNatsMessageQueue routerUrl0 mqCfg = inl nats /\
        (forall trigger,
            isTopicValidForNats (crd.Topic (crd.Spec trigger)) = true ->
            snd (subscribe nats trigger) =
            ns.Subscribe conn (crd.Topic (crd.Spec trigger))
              {| ns.DurableName_ := crd.UID (crd.Metadata trigger);
                 ns.ManualAcks := true |}) /\
        (forall trigger msg k rq d,
            In (EvDo k rq d) (fst (msgHandler nats trigger msg)) ->
            http.URL rq =
              routerUrl0 +:+ "/" +:+
              strings.TrimPrefix
                (UrlForFunction
                   (fission.Name (crd.FunctionReference (crd.Spec trigger))))
                "/")
  end.
Proof.
  unfold makeNatsMessageQueue.
  destruct (Connect natsClusterID natsClientID (Url mqCfg)) as [conn | e];
    [|reflexivity].
  eexists. split; [reflexivity|]. split.
  - intros trigger Hvalid. unfold subscribe. rewrite Hvalid. simpl.
    change (ns.applyOptions
              [ns.DurableName (crd.UID (crd.Metadata trigger));
               ns.SetManualAckMode])
      with {| ns.DurableName_ := crd.UID (crd.Metadata trigger);
              ns.ManualAcks := true |}.
    destruct (ns.Subscribe _ _ _); reflexivity.
  - intros trigger msg k rq d Hin.
    destruct (attempt_uses_built_request _ _ _ _ _ _ Hin)
      as (req & Hreq & (_ & <- & _)).
    destruct (buildRequest_spec _ _ _ _ Hreq) as (_ & -> & _).
    reflexivity.
Qed.

(** X13: [unsubscribe] on what [subscribe] handed back closes the
    subscription the broker gave and returns the result of that close; on
    the nil that a failed [subscribe] hands back, be it for an invalid topic
    or for a broker error, its type assertion panics and nothing is
    closed. *)
Theorem unsubscribe_after_subscribe (nats : Nats)
  (trigger : crd.MessageQueueTrigger) :
  unsubscribe nats (asSubscription (snd (subscribe nats trigger))) =
  if isTopicValidForNats (crd.Topic (crd.Spec trigger))
  then match ns.Subscribe (nsConn nats) (crd.Topic (crd.Spec trigger))
               {| ns.DurableName_ := crd.UID (crd.Metadata trigger);
                  ns.ManualAcks := true |} with
       | inl sub => Closed sub (Close sub)
       | inr _ => AssertionPanic
       end
  else AssertionPanic.
Proof.
  unfold subscribe.
  destruct (isTopicValidForNats (crd.Topic (crd.Spec trigger))); simpl;
    [|reflexivity].
  change (ns.applyOptions
            [ns.DurableName (crd.UID (crd.Metadata trigger));
             ns.SetManualAckMode])
    with {| ns.DurableName_ := crd.UID (crd.Metadata trigger);
            ns.ManualAcks := true |}.
  destruct (ns.Subscribe _ _ _); reflexivity.
Qed.

(** X14: the handler takes [MaxRetries] as it is given: against an endpoint
    that never succeeds it makes that many attempts, be they more than five,
    and none at all for zero or a negative number, in which case it ends in
    the nil-pointer panic of line 153 without having called anything. *)
Theorem retries_not_clamped (nats : Nats)
  (trigger : crd.MessageQueueTrigger) (msg : ns.Msg) :
  fission.Type_ (crd.FunctionReference (crd.Spec trigger))
    = FunctionReferenceTypeFunctionName ->
  urlParses (functionUrl nats trigger) = true ->
  (forall k rq, attemptSucceeded (DefaultClient k rq) = false) ->
  length (doResults (fst (msgHandler nats trigger msg)))
    = Z.to_nat (crd.MaxRetries (crd.Spec trigger)) /\
  ((crd.MaxRetries (crd.Spec trigger) <= 0)%Z ->
   msgHandler nats trigger msg = ([], NilPointerPanic)).
Proof.
  intros Hty Hurl Hfail.
  destruct (buildRequest_ok nats trigger msg Hurl) as [req0 Hreq0].
  assert (Hlen : forall req tail,
    Forall (fun e => isDo e = false) tail ->
    length (doResults
      (loopEvents
         (attemptLoop (Z.to_nat (crd.MaxRetries (crd.Spec trigger))) 0 req
                      None None) ++ tail))
    = Z.to_nat (crd.MaxRetries (crd.Spec trigger))).
  { intros req tail Htail.
    rewrite doResults_app, (doResults_notDo tail Htail), app_nil_r.
    rewrite doResults_length_isDo by apply loopEvents_isDo.
    now apply attemptLoop_all_fail. }
  assert (Hzero : forall req,
    (crd.MaxRetries (crd.Spec trigger) <= 0)%Z ->
    attemptLoop (Z.to_nat (crd.MaxRetries (crd.Spec trigger))) 0 req None None
    = {| loopEvents := []; loopReq := req; loopResp := None;
         loopErr := None |}).
  { intros req Hle.
    replace (Z.to_nat (crd.MaxRetries (crd.Spec trigger))) with 0%nat by lia.
    reflexivity. }
  destruct (msgHandler_path nats trigger msg)
    as [Hty' | e Hty' Hreq | req l Hty' Hreq Hl Hresp
        | req l resp e Hty' Hreq Hl Hresp Hread
        | req l resp Hty' Hreq Hl Hresp Hread Hbad
        | req l resp Hty' Hreq Hl Hresp Hread Herr Hst]; simpl;
    try contradiction; try congruence; subst l.
  - split.
    + rewrite <- (app_nil_r (loopEvents _)). apply Hlen. constructor.
    + intros Hle. now rewrite Hzero.
  - split; [apply Hlen; auto with tail|].
    intros Hle. rewrite Hzero in Hresp by exact Hle. discriminate.
  - split; [apply Hlen; auto with tail|].
    intros Hle. rewrite Hzero in Hresp by exact Hle. discriminate.
  - exfalso.
    destruct (loop_final_success _ _ _ _ _ Hresp Herr Hst)
      as (k & rq & d & Hin & Hs & _).
    apply loop_In_client in Hin. destruct Hin as (-> & _).
    rewrite Hfail in Hs. discriminate.
Qed.

End Core.


(** ** The sample runs *)

(** C1 as the specification words it fails: the endpoint answers 200 with a
    body that cannot be read; an attempt succeeded, and the message is not
    acknowledged. *)
Lemma succeeded_but_not_acknowledged :
  ~ ackIffSucceeded
      (fst (msgHandler exUrlForFunction "name" exUrlParses
              (exAnswers (exUnreadable 200)) exNats
              (exTrigger "name" "orders" "orders.out" "orders.err" 3) exMsg)).
Proof.
  unfold ackIffSucceeded.
  rewrite acknowledged_isAck, someAttemptSucceeded_anySucceeded.
  vm_compute. intros [_ H]. specialize (H eq_refl). discriminate.
Qed.

(** C2 on a sample: three retries against an endpoint that always answers
    500. *)
Lemma failing_endpoint_invoked_exactly_N_times_witness :
  exists calls rest,
    fst (msgHandler exUrlForFunction "name" exUrlParses
           (exAnswers (exReadable 500 "boom")) exNats
           (exTrigger "name" "orders" "orders.out" "orders.err" 3) exMsg)
      = calls ++ rest /\
    length calls = Z.to_nat 3 /\
    (forall k e, calls !! k = Some e ->
                 exists rq,
                   e = EvDo k rq (exAnswers (exReadable 500 "boom") k rq)) /\
    Forall (fun e => isDo e = false) rest /\
    (forall e, In e rest -> e <> EvAck).
Proof.
  apply (failing_endpoint_invoked_exactly_N_times
           exUrlForFunction "name" exUrlParses
           (exAnswers (exReadable 500 "boom")) exNats
           (exTrigger "name" "orders" "orders.out" "orders.err" 3) exMsg 3).
  - reflexivity.
  - lia.
  - reflexivity.
  - vm_compute. reflexivity.
  - intros k rq. reflexivity.
Defined.

(** C3 fails in the code: one retry against an endpoint that cannot be
    reached; the only attempt yields no response, and the handler ends in a
    nil-pointer panic, at the [resp.Body] of line 153, instead of returning
    through the nil test of line 155. *)
Theorem absent_response_is_dereferenced :
  Forall (fun d => http.resp d = None)
    (doResults
       (fst (msgHandler exUrlForFunction "name" exUrlParses exUnreachable
               exNats (exTrigger "name" "orders" "orders.out" "orders.err" 1)
               exMsg))) /\
  length
    (doResults
       (fst (msgHandler exUrlForFunction "name" exUrlParses exUnreachable
               exNats (exTrigger "name" "orders" "orders.out" "orders.err" 1)
               exMsg))) = 1%nat /\
  snd (msgHandler exUrlForFunction "name" exUrlParses exUnreachable
         exNats (exTrigger "name" "orders" "orders.out" "orders.err" 1)
         exMsg) = NilPointerPanic.
Proof.
  split; [|split]; vm_compute; [|reflexivity|reflexivity].
  repeat constructor.
Qed.

(** C4 as the specification words it fails, twice over: with an error topic
    set, a run whose final response has an unreadable body publishes
    nothing, and so does a run whose final attempt came back with no
    response, although an earlier attempt had a body. *)
Lemma exhausted_without_error_publish :
  ~ publishesOnExhaustion
      (crd.Spec (exTrigger "name" "orders" "orders.out" "orders.err" 2))
      (fst (msgHandler exUrlForFunction "name" exUrlParses
              (exAnswers (exUnreadable 500)) exNats
              (exTrigger "name" "orders" "orders.out" "orders.err" 2) exMsg))
  /\
  ~ publishesOnExhaustion
      (crd.Spec (exTrigger "name" "orders" "orders.out" "orders.err" 2))
      (fst (msgHandler exUrlForFunction "name" exUrlParses
              exThenUnreachable exNats
              (exTrigger "name" "orders" "orders.out" "orders.err" 2) exMsg)).
Proof.
  split; unfold publishesOnExhaustion;
    rewrite someAttemptSucceeded_anySucceeded; intros H;
    destruct H as (_ & Hpub & _);
    try (vm_compute; discriminate);
    specialize (Hpub ltac:(discriminate));
    vm_compute in Hpub; discriminate.
Qed.

(** C4, as amended, on a sample: two retries against an endpoint that
    answers 500 with body "boom"; one publish, of "boom", to the error
    topic. *)
Lemma exhausted_publishes_final_body_witness :
  publishes
    (fst (msgHandler exUrlForFunction "name" exUrlParses
            (exAnswers (exReadable 500 "boom")) exNats
            (exTrigger "name" "orders" "orders.out" "orders.err" 2) exMsg))
    = [(ToErrorTopic, "orders.err", bytes_of "boom")].
Proof.
  pose proof (exhausted_publishes_final_body
                exUrlForFunction "name" exUrlParses
                (exAnswers (exReadable 500 "boom")) exNats
                (exTrigger "name" "orders" "orders.out" "orders.err" 2) exMsg)
    as H.
  destruct H as [_ H].
  - rewrite someAttemptSucceeded_anySucceeded. vm_compute. discriminate.
  - rewrite H. vm_compute. reflexivity.
Defined.

(** C5 as the specification words it fails: a trigger whose function
    reference is of type "url" ends the process. *)
Lemma unsupported_reference_ends_process :
  ~ processSurvives
      (snd (msgHandler exUrlForFunction "name" exUrlParses
              (exAnswers (exReadable 200 "pong")) exNats
              (exTrigger "url" "orders" "orders.out" "orders.err" 3) exMsg)).
Proof. vm_compute. tauto. Qed.

(** C6 as the specification words it fails: the error topic and the
    response topic of the trigger are the same topic, and the endpoint
    answers 500; the body goes to that topic and nothing is acknowledged. *)
Lemma response_topic_publish_without_ack :
  ~ responseTopicPublishAfterAck
      (crd.Spec (exTrigger "name" "orders" "orders.out" "orders.out" 1))
      (fst (msgHandler exUrlForFunction "name" exUrlParses
              (exAnswers (exReadable 500 "boom")) exNats
              (exTrigger "name" "orders" "orders.out" "orders.out" 1) exMsg)).
Proof.
  intros H.
  specialize (H (firstn 1
                   (fst (msgHandler exUrlForFunction "name" exUrlParses
                           (exAnswers (exReadable 500 "boom")) exNats
                           (exTrigger "name" "orders" "orders.out"
                                      "orders.out" 1) exMsg)))
                [EvCloseBody] ToErrorTopic (bytes_of "boom")).
  assert (Hack : existsb isAck
            (firstn 1
               (fst (msgHandler exUrlForFunction "name" exUrlParses
                       (exAnswers (exReadable 500 "boom")) exNats
                       (exTrigger "name" "orders" "orders.out"
                                  "orders.out" 1) exMsg))) = true).
  { apply acknowledged_isAck. apply H. vm_compute. reflexivity. }
  vm_compute in Hack. discriminate.
Qed.

(** C6, as amended, on a sample: the endpoint answers 500, then 200 with
    body "pong"; the error topic is not the response topic. *)
Lemma ack_precedes_response_topic_publish_witness :
  In EvAck
    (firstn 3
       (fst (msgHandler exUrlForFunction "name" exUrlParses (exRecovers 1)
               exNats (exTrigger "name" "orders" "orders.out" "orders.err" 3)
               exMsg))).
Proof.
  destruct (ack_precedes_response_topic_publish
              exUrlForFunction "name" exUrlParses (exRecovers 1) exNats
              (exTrigger "name" "orders" "orders.out" "orders.err" 3) exMsg
              (firstn 3
                 (fst (msgHandler exUrlForFunction "name" exUrlParses
                         (exRecovers 1) exNats
                         (exTrigger "name" "orders" "orders.out" "orders.err" 3)
                         exMsg)))
              [EvCloseBody] ToResponseTopic (bytes_of "pong"))
    as (_ & _ & Hack & _).
  - left. vm_compute. discriminate.
  - vm_compute. reflexivity.
  - exact Hack.
Defined.

(** C7 on a sample: a wildcard topic. *)
Lemma invalid_topic_never_subscribes_witness :
  subscribe exIsChannelNameValid exNats
    (exTrigger "name" "orders.*" "orders.out" "orders.err" 3)
  = ([], inr "Not a valid topic: orders.*").
Proof.
  apply (invalid_topic_never_subscribes exIsChannelNameValid exNats
           (exTrigger "name" "orders.*" "orders.out" "orders.err" 3)).
  reflexivity.
Defined.

(** C8 as the specification words it fails: the request of the first
    attempt has no header named X-MQTrigger-Topic. *)
Lemma request_lacks_specified_header_names :
  exists k rq d,
    In (EvDo k rq d)
       (fst (msgHandler exUrlForFunction "name" exUrlParses
               (exAnswers (exReadable 200 "pong")) exNats
               (exTrigger "name" "orders" "orders.out" "orders.err" 3) exMsg))
    /\
    http.Values (http.Header_ rq) "X-MQTrigger-Topic" = [] /\
    ~ requestAsSpecified
        (exTrigger "name" "orders" "orders.out" "orders.err" 3) exMsg rq.
Proof.
  vm_compute.
  eexists _, _, _. split; [left; reflexivity|].
  split; [reflexivity|]. intros (_ & H & _). discriminate.
Qed.

(** C8, as amended, on a sample: the request of the first attempt. *)
Lemma request_headers_and_body_witness :
  http.Method exRequest = "POST" /\
  http.URL exRequest = "http://router.fission/fission-function/hello" /\
  carries exRequest "X-Fission-MQTrigger-Topic" "orders" /\
  carries exRequest "X-Fission-MQTrigger-RespTopic" "orders.out" /\
  carries exRequest "X-Fission-MQTrigger-ErrorTopic" "orders.err" /\
  carries exRequest "Content-Type" "application/json" /\
  bytes.s (http.ReqBody exRequest) = bytes_of "ping" /\
  (0%nat = 0%nat -> bytes.unread (http.ReqBody exRequest) = bytes_of "ping").
Proof.
  apply (request_headers_and_body
           exUrlForFunction "name" exUrlParses
           (exAnswers (exReadable 200 "pong")) exNats
           (exTrigger "name" "orders" "orders.out" "orders.err" 3) exMsg
           0 exRequest
           (exAnswers (exReadable 200 "pong") 0%nat exRequest)).
  vm_compute. left. reflexivity.
Defined.

(** C9 on a sample: two retries against an endpoint that answers 500 with
    a body that cannot be read, the error topic being set. *)
Lemma unreadable_final_body_publishes_nothing_witness :
  snd (msgHandler exUrlForFunction "name" exUrlParses
         (exAnswers (exUnreadable 500)) exNats
         (exTrigger "name" "orders" "orders.out" "orders.err" 2) exMsg)
    = Returned /\
  publishes
    (fst (msgHandler exUrlForFunction "name" exUrlParses
            (exAnswers (exUnreadable 500)) exNats
            (exTrigger "name" "orders" "orders.out" "orders.err" 2) exMsg))
    = [] /\
  ~ acknowledged
      (fst (msgHandler exUrlForFunction "name" exUrlParses
              (exAnswers (exUnreadable 500)) exNats
              (exTrigger "name" "orders" "orders.out" "orders.err" 2) exMsg))
  /\
  length
    (doResults
       (fst (msgHandler exUrlForFunction "name" exUrlParses
               (exAnswers (exUnreadable 500)) exNats
               (exTrigger "name" "orders" "orders.out" "orders.err" 2) exMsg)))
    = Z.to_nat 2.
Proof.
  apply (unreadable_final_body_publishes_nothing
           exUrlForFunction "name" exUrlParses
           (exAnswers (exUnreadable 500)) exNats
           (exTrigger "name" "orders" "orders.out" "orders.err" 2) exMsg
           {| http.bodyRead := 0; http.resp := Some (exUnreadable 500);
              http.err := None |}
           (exUnreadable 500) "unexpected EOF").
  - rewrite someAttemptSucceeded_anySucceeded. vm_compute. discriminate.
  - vm_compute. reflexivity.
  - reflexivity.
  - reflexivity.
Defined.

(** C10 on a sample: the endpoint reads the whole body and answers 500 at
    the first attempt; the second attempt finds nothing left to send. *)
Lemma later_attempts_find_body_consumed_witness :
  sameObject exRequest
    (http.afterDo (exRecovers 1 0%nat exRequest) exRequest) /\
  bytes.s (http.ReqBody
             (http.afterDo (exRecovers 1 0%nat exRequest) exRequest))
    = bytes_of "ping" /\
  bytes.unread (http.ReqBody
                  (http.afterDo (exRecovers 1 0%nat exRequest) exRequest))
    = [] /\
  (bytes_of "ping" <> [] ->
   bytes.unread (http.ReqBody
                   (http.afterDo (exRecovers 1 0%nat exRequest) exRequest))
     <> bytes_of "ping").
Proof.
  apply (later_attempts_find_body_consumed
           exUrlForFunction "name" exUrlParses (exRecovers 1) exNats
           (exTrigger "name" "orders" "orders.out" "orders.err" 3) exMsg
           0 1 exRequest
           (http.afterDo (exRecovers 1 0%nat exRequest) exRequest)
           (exRecovers 1 0%nat exRequest)
           (exRecovers 1 1%nat
              (http.afterDo (exRecovers 1 0%nat exRequest) exRequest))).
  - vm_compute. left. reflexivity.
  - vm_compute. right. left. reflexivity.
  - lia.
  - vm_compute. lia.
Defined.

(** ** Sample runs for the further properties *)

(** X3 on a sample: the endpoint answers 500, then 200 with body "pong";
    two calls, then the acknowledge, the publish and the close. *)
Lemma success_at_attempt_k_witness :
  exists calls,
    msgHandler exUrlForFunction "name" exUrlParses (exRecovers 1) exNats
      (exTrigger "name" "orders" "orders.out" "orders.err" 3) exMsg =
    (calls ++ [EvAck] ++
     publishResponse
       (crd.Spec (exTrigger "name" "orders" "orders.out" "orders.err" 3))
       (bytes_of "pong") ++
     [EvCloseBody], Returned) /\
    length calls = 2%nat /\
    Forall (fun e => isDo e = true) calls.
Proof.
  apply (success_at_attempt_k
           exUrlForFunction "name" exUrlParses (exRecovers 1) exNats
           (exTrigger "name" "orders" "orders.out" "orders.err" 3) exMsg
           1 (exReadable 200 "pong")).
  - reflexivity.
  - vm_compute. reflexivity.
  - simpl. lia.
  - intros j rq Hj. destruct j as [|j]; [reflexivity | lia].
  - intros rq. split; reflexivity.
  - reflexivity.
Defined.


(** X9 on a sample: the header map of the first request. *)
Lemma request_header_map_witness :
  http.Header_ exRequest =
    <[ "X-Fission-Mqtrigger-Topic" := ["orders"] ]>
    (<[ "X-Fission-Mqtrigger-Resptopic" := ["orders.out"] ]>
    (<[ "X-Fission-Mqtrigger-Errortopic" := ["orders.err"] ]>
    (<[ "Content-Type" := ["application/json"] ]> ∅))).
Proof.
  apply (request_header_map
           exUrlForFunction "name" exUrlParses
           (exAnswers (exReadable 200 "pong")) exNats
           (exTrigger "name" "orders" "orders.out" "orders.err" 3) exMsg
           0 exRequest
           (exAnswers (exReadable 200 "pong") 0%nat exRequest)).
  vm_compute. left. reflexivity.
Defined.

(** X10 on a sample: the entries taken in the order the source writes
    them. *)
Lemma addHeaders_any_order_witness :
  addHeaders
    [("X-Fission-MQTrigger-Topic", "orders");
     ("X-Fission-MQTrigger-RespTopic", "orders.out");
     ("X-Fission-MQTrigger-ErrorTopic", "orders.err");
     ("Content-Type", "application/json")]
    {| http.Method := "POST"; http.URL := "http://router.fission/f";
       http.Header_ := ∅; http.ReqBody := bytes.NewReader [] |}
  = addHeaders
      (map_to_list
         (headers (exTrigger "name" "orders" "orders.out" "orders.err" 3)))
      {| http.Method := "POST"; http.URL := "http://router.fission/f";
         http.Header_ := ∅; http.ReqBody := bytes.NewReader [] |}.
Proof.
  apply (addHeaders_any_order
           (exTrigger "name" "orders" "orders.out" "orders.err" 3)).
  vm_compute.
  apply (Permutation_rev
           [("X-Fission-MQTrigger-Topic", "orders");
            ("X-Fission-MQTrigger-RespTopic", "orders.out");
            ("X-Fission-MQTrigger-ErrorTopic", "orders.err");
            ("Content-Type", "application/json")]).
Defined.

(** X14 on a sample: seven retries against an endpoint that always answers
    500. *)
Lemma retries_not_clamped_witness :
  length
    (doResults
       (fst (msgHandler exUrlForFunction "name" exUrlParses
               (exAnswers (exReadable 500 "boom")) exNats
               (exTrigger "name" "orders" "orders.out" "orders.err" 7) exMsg)))
    = 7%nat.
Proof.
  apply (retries_not_clamped
           exUrlForFunction "name" exUrlParses
           (exAnswers (exReadable 500 "boom")) exNats
           (exTrigger "name" "orders" "orders.out" "orders.err" 7) exMsg).
  - reflexivity.
  - vm_compute. reflexivity.
  - intros k rq. reflexivity.
Defined.
